(** * OhPyBoyColor: the CPU core of [cpu/cpu.py]

    A shallow embedding of [GameBoyColorCPU]: its register file, every
    operation of the opcode table, [tick] and [main_loop], followed by the
    properties of the engine.

    Python integers are unbounded, so registers are [Z] and every mask the
    code applies is written out. [halt], an endless [while True: pass] that
    the opcode table never refers to, has no counterpart here, and neither
    has the pacing [time.sleep] inside [tick]. *)

From Stdlib Require Import ZArith List Lia Bool.
From Stdlib Require Import Strings.Byte.
Import ListNotations.

Local Open Scope Z_scope.

(** ** The Python primitives the engine relies on *)

Module Py.

(** The two kinds of Python object that [==] is applied to in the engine. *)
Inductive value : Type :=
| Int (z : Z)
| List (l : list Z).

Fixpoint list_eq (l1 l2 : list Z) : bool :=
  match l1, l2 with
  | [], [] => true
  | x :: r1, y :: r2 => (x =? y) && list_eq r1 r2
  | _, _ => false
  end.

(** [a == b]: integers compare by value, lists element-wise, and a list
    never equals an integer. *)
Definition eq (a b : value) : bool :=
  match a, b with
  | Int x, Int y => x =? y
  | List x, List y => list_eq x y
  | _, _ => false
  end.

(** Truth value of an integer ([if x], [not x], [while x]). *)
Definition truthy (z : Z) : bool := negb (z =? 0).

(** [data[i]] on a [bytes] object: an index in [0, len) reads that byte, an
    index in [-len, 0) counts from the end, anything else is an
    [IndexError] (here [None]). *)
Definition getitem (data : list byte) (i : Z) : option Z :=
  let n := Z.of_nat (length data) in
  let j := if i <? 0 then i + n else i in
  if (0 <=? j) && (j <? n)
  then option_map (fun b => Z.of_N (Byte.to_N b)) (nth_error data (Z.to_nat j))
  else None.

(** How a slice bound is adjusted to a sequence of length [n]: a negative
    bound counts from the end and stops at 0, any other bound stops at [n]. *)
Definition adjust (n i : Z) : Z :=
  if i <? 0 then Z.max (i + n) 0 else Z.min i n.

(** [data[start:stop]] on a [bytes] object; never an error, the bounds are
    adjusted and an empty range gives the empty object. *)
Definition slice (data : list byte) (start stop : Z) : list byte :=
  let n := Z.of_nat (length data) in
  let a := adjust n start in
  let b := adjust n stop in
  firstn (Z.to_nat (b - a)) (skipn (Z.to_nat a) data).

(** [data[start:]] *)
Definition slice_from (data : list byte) (start : Z) : list byte :=
  let n := Z.of_nat (length data) in
  skipn (Z.to_nat (adjust n start)) data.

End Py.

(** ** Register file *)

(** [RegisterConstants]: the index of a half inside a pair. *)
Inductive RegisterConstants : Type := HIGH | LOW.

(** A register pair is the two-element list [[HI, LO]]. *)
Record pair : Type := mkPair { hi : Z; lo : Z }.

Definition item (p : pair) (i : RegisterConstants) : Z :=
  match i with HIGH => hi p | LOW => lo p end.

Definition set_item (p : pair) (i : RegisterConstants) (v : Z) : pair :=
  match i with HIGH => mkPair v (lo p) | LOW => mkPair (hi p) v end.

Definition as_list (p : pair) : Py.value := Py.List [hi p; lo p].

(** The mutable fields of [GameBoyColorCPU]. *)
Record cpu : Type := mkCPU {
  AF : pair;
  BC : pair;
  DE : pair;
  HL : pair;
  SP : Z;
  PC : Z;
  ticks : Z
}.

(** The state built by [__init__]. *)
Definition init : cpu :=
  mkCPU (mkPair 0x00 0) (mkPair 0x00 0x00) (mkPair 0x00 0x00) (mkPair 0x00 0x00)
        0x00 0x00 0.

Inductive reg : Type := rAF | rBC | rDE | rHL.

Definition get_reg (r : reg) (s : cpu) : pair :=
  match r with rAF => AF s | rBC => BC s | rDE => DE s | rHL => HL s end.

Definition set_reg (r : reg) (p : pair) (s : cpu) : cpu :=
  match r with
  | rAF => mkCPU p (BC s) (DE s) (HL s) (SP s) (PC s) (ticks s)
  | rBC => mkCPU (AF s) p (DE s) (HL s) (SP s) (PC s) (ticks s)
  | rDE => mkCPU (AF s) (BC s) p (HL s) (SP s) (PC s) (ticks s)
  | rHL => mkCPU (AF s) (BC s) (DE s) p (SP s) (PC s) (ticks s)
  end.

Definition set_PC (v : Z) (s : cpu) : cpu :=
  mkCPU (AF s) (BC s) (DE s) (HL s) (SP s) v (ticks s).

Definition set_ticks (v : Z) (s : cpu) : cpu :=
  mkCPU (AF s) (BC s) (DE s) (HL s) (SP s) (PC s) v.

(** ** Methods as state transformers that may raise *)

Inductive exn : Type := IndexError | KeyError.

(** A call either returns a value in a new state, or raises in the state
    reached when the exception was thrown. *)
Inductive result (A : Type) : Type :=
| Ok (a : A) (s : cpu)
| Raise (e : exn) (s : cpu).

Arguments Ok {A} a s.
Arguments Raise {A} e s.

Definition M (A : Type) : Type := cpu -> result A.

Definition ret {A} (a : A) : M A := fun s => Ok a s.

Definition bind {A B} (m : M A) (k : A -> M B) : M B :=
  fun s => match m s with
           | Ok a s' => k a s'
           | Raise e s' => Raise e s'
           end.

Declare Scope cpu_scope.
Delimit Scope cpu_scope with cpu.
Notation "x <- m ;; k" := (bind m (fun x => k))
  (at level 61, m at next level, right associativity) : cpu_scope.
Notation "m ;; k" := (bind m (fun _ => k))
  (at level 61, right associativity) : cpu_scope.
Local Open Scope cpu_scope.

(** The state a call ends in, whether it returned or raised. *)
Definition final {A} (r : result A) : cpu :=
  match r with Ok _ s => s | Raise _ s => s end.

(** [self.__R[i]] *)
Definition rd (r : reg) (i : RegisterConstants) : M Z :=
  fun s => Ok (item (get_reg r s) i) s.

(** [self.__R[i] = v] *)
Definition wr (r : reg) (i : RegisterConstants) (v : Z) : M unit :=
  fun s => Ok tt (set_reg r (set_item (get_reg r s) i v) s).

(** [self.__R] as an object *)
Definition rd_obj (r : reg) : M Py.value :=
  fun s => Ok (as_list (get_reg r s)) s.

Definition rd_PC : M Z := fun s => Ok (PC s) s.

Definition wr_PC (v : Z) : M unit := fun s => Ok tt (set_PC v s).

(** [self.__ticks += 1] *)
Definition incr_ticks : M unit := fun s => Ok tt (set_ticks (ticks s + 1) s).

(** ** The execution engine *)

Section Engine.

(** [self.__game_data]: the [bytes] object handed to the constructor; the
    engine only reads it. *)
Variable game_data : list byte.

(** [self.__game_data[i]] *)
Definition fetch (i : Z) : M Z :=
  fun s => match Py.getitem game_data i with
           | Some b => Ok b s
           | None => Raise IndexError s
           end.

(** [self.__PC += n] *)
Definition add_PC (n : Z) : M unit :=
  pc <- rd_PC ;; wr_PC (pc + n).

(** [while ticks: self.__ticks += 1; time.sleep(...); ticks -= 1]; the sleep
    only paces the host and leaves the state alone. *)
Fixpoint tick (ticks : nat) : M unit :=
  match ticks with
  | O => ret tt
  | S ticks' => incr_ticks ;; tick ticks'
  end.

Definition nop : M unit :=
  add_PC 1 ;;
  tick 4.

Definition stop : M unit :=
  ret tt.

Definition rlca : M unit :=
  a <- rd rAF HIGH ;;
  let carry := Z.shiftr (Z.land a 0x80) 7 in
  let flags := Z.shiftl carry 4 in
  a <- rd rAF HIGH ;;
  wr rAF HIGH (Z.lor (Z.land (Z.shiftl a 1) 0xFF) carry) ;;
  wr rAF LOW flags ;;
  add_PC 1 ;;
  tick 4.

Definition rla : M unit :=
  f <- rd rAF LOW ;;
  let carry := Z.shiftr (Z.land f 0x10) 4 in
  a <- rd rAF HIGH ;;
  let new_carry := Z.shiftr (Z.land a 0x80) 7 in
  let flags := Z.shiftl new_carry 4 in
  a <- rd rAF HIGH ;;
  wr rAF HIGH (Z.lor (Z.land (Z.shiftl a 1) 0xFF) carry) ;;
  wr rAF LOW flags ;;
  add_PC 1 ;;
  tick 4.

Definition rrca : M unit :=
  a <- rd rAF HIGH ;;
  let carry := Z.land a 0x01 in
  let flags := Z.shiftl carry 4 in
  a <- rd rAF HIGH ;;
  wr rAF HIGH (Z.lor (Z.shiftr a 1) (Z.shiftl carry 7)) ;;
  wr rAF LOW flags ;;
  add_PC 1 ;;
  tick 4.

Definition rra : M unit :=
  f <- rd rAF LOW ;;
  let carry := Z.shiftr (Z.land f 0x10) 4 in
  a <- rd rAF HIGH ;;
  let new_carry := Z.land a 0x01 in
  let flags := Z.shiftl new_carry 4 in
  a <- rd rAF HIGH ;;
  wr rAF HIGH (Z.lor (Z.shiftr a 1) (Z.shiftl carry 7)) ;;
  wr rAF LOW flags ;;
  add_PC 1 ;;
  tick 4.

Definition jr_8bit_r8 : M unit :=
  pc <- rd_PC ;;
  pc' <- rd_PC ;;
  d <- fetch (pc' + 1) ;;
  wr_PC (pc + d) ;;
  tick 12.

Definition jr_8bit_nz_r8 : M unit :=
  f <- rd rAF LOW ;;
  if negb (Py.truthy (Z.land f 0x80)) then
    pc <- rd_PC ;;
    pc' <- rd_PC ;;
    d <- fetch (pc' + 1) ;;
    wr_PC (pc + d) ;;
    tick 12
  else
    tick 8.

Definition add_16bit_hl_bc : M unit :=
  h <- rd rHL HIGH ;;
  l <- rd rHL LOW ;;
  let val_hl := Z.shiftl h 8 + l in
  h' <- rd rBC HIGH ;;
  l' <- rd rBC LOW ;;
  let val_bc := Z.shiftl h' 8 + l' in
  let bit_11_carry := Z.shiftr (Z.land val_hl 0x0FFF + Z.land val_bc 0x0FFF) 12 in
  let val_hl := val_hl + val_bc in
  let bit_15_carry := Z.shiftr val_hl 16 in
  let val_hl := Z.land val_hl 0xFFFF in
  wr rHL HIGH (Z.shiftr val_hl 8) ;;
  wr rHL LOW (Z.land val_hl 0xFF) ;;
  let flags := Z.lor (Z.lor 0 (Z.shiftl bit_11_carry 5)) (Z.shiftl bit_15_carry 4) in
  wr rAF LOW flags ;;
  add_PC 1 ;;
  tick 8.

Definition add_16bit_hl_de : M unit :=
  h <- rd rHL HIGH ;;
  l <- rd rHL LOW ;;
  let val_hl := Z.shiftl h 8 + l in
  h' <- rd rDE HIGH ;;
  l' <- rd rDE LOW ;;
  let val_de := Z.shiftl h' 8 + l' in
  let bit_11_carry := Z.shiftr (Z.land val_hl 0x0FFF + Z.land val_de 0x0FFF) 12 in
  let val_hl := val_hl + val_de in
  let bit_15_carry := Z.shiftr val_hl 16 in
  let val_hl := Z.land val_hl 0xFFFF in
  wr rHL HIGH (Z.shiftr val_hl 8) ;;
  wr rHL LOW (Z.land val_hl 0xFF) ;;
  let flags := Z.lor (Z.lor 0 (Z.shiftl bit_11_carry 5)) (Z.shiftl bit_15_carry 4) in
  wr rAF LOW flags ;;
  add_PC 1 ;;
  tick 8.

Definition ld_8bit_a_bc : M unit :=
  h <- rd rBC HIGH ;;
  l <- rd rBC LOW ;;
  let memory_location := Z.shiftl h 8 + l in
  add_PC 1 ;;
  tick 8.

Definition ld_8bit_a_de : M unit :=
  h <- rd rDE HIGH ;;
  l <- rd rDE LOW ;;
  let memory_location := Z.shiftl h 8 + l in
  add_PC 1 ;;
  tick 8.

Definition ld_8bit_bc_a : M unit :=
  h <- rd rBC HIGH ;;
  l <- rd rBC LOW ;;
  let memory_location := Z.shiftl h 8 + l in
  add_PC 1 ;;
  tick 8.

Definition ld_8bit_de_a : M unit :=
  h <- rd rDE HIGH ;;
  l <- rd rDE LOW ;;
  let memory_location := Z.shiftl h 8 + l in
  add_PC 1 ;;
  tick 8.

Definition ld_8bit_hli_a : M unit :=
  h <- rd rHL HIGH ;;
  l <- rd rHL LOW ;;
  let memory_location := Z.shiftl h 8 + l in
  let val := memory_location + 1 in
  let val := Z.land val 0xFFFF in
  wr rHL HIGH (Z.shiftr val 8) ;;
  wr rHL LOW (Z.land val 0xFF) ;;
  add_PC 1 ;;
  tick 8.

Definition ld_8bit_b_d8 : M unit :=
  pc <- rd_PC ;;
  b <- fetch (pc + 1) ;;
  wr rBC HIGH b ;;
  add_PC 2 ;;
  tick 8.

Definition ld_8bit_c_d8 : M unit :=
  pc <- rd_PC ;;
  b <- fetch (pc + 1) ;;
  wr rBC LOW b ;;
  add_PC 2 ;;
  tick 8.

Definition ld_8bit_d_d8 : M unit :=
  pc <- rd_PC ;;
  b <- fetch (pc + 1) ;;
  wr rDE HIGH b ;;
  add_PC 2 ;;
  tick 8.

Definition ld_8bit_e_d8 : M unit :=
  pc <- rd_PC ;;
  b <- fetch (pc + 1) ;;
  wr rDE LOW b ;;
  add_PC 2 ;;
  tick 8.

Definition ld_8bit_h_d8 : M unit :=
  pc <- rd_PC ;;
  b <- fetch (pc + 1) ;;
  wr rHL HIGH b ;;
  add_PC 2 ;;
  tick 8.

Definition ld_16bit_bc : M unit :=
  pc <- rd_PC ;;
  b <- fetch (pc + 1) ;;
  wr rBC HIGH b ;;
  pc <- rd_PC ;;
  b <- fetch (pc + 2) ;;
  wr rBC LOW b ;;
  add_PC 3 ;;
  tick 12.

Definition ld_16bit_de : M unit :=
  pc <- rd_PC ;;
  b <- fetch (pc + 1) ;;
  wr rDE HIGH b ;;
  pc <- rd_PC ;;
  b <- fetch (pc + 2) ;;
  wr rDE LOW b ;;
  add_PC 3 ;;
  tick 12.

Definition ld_16bit_hl : M unit :=
  pc <- rd_PC ;;
  b <- fetch (pc + 1) ;;
  wr rHL HIGH b ;;
  pc <- rd_PC ;;
  b <- fetch (pc + 2) ;;
  wr rHL LOW b ;;
  add_PC 3 ;;
  tick 12.

Definition ld_16bit_a16_sp : M unit :=
  pc <- rd_PC ;;
  b1 <- fetch (pc + 1) ;;
  pc <- rd_PC ;;
  b2 <- fetch (pc + 2) ;;
  let memory_location := Z.shiftl b1 8 + b2 in
  add_PC 3 ;;
  tick 20.

Definition inc_8bit_b : M unit :=
  v <- rd rBC HIGH ;;
  wr rBC HIGH (v + 1) ;;
  v <- rd rBC HIGH ;;
  wr rBC HIGH (Z.land v 0xFF) ;;
  add_PC 1 ;;
  let flags := 0 in
  p <- rd_obj rBC ;;
  let flags := if Py.eq p (Py.Int 0) then Z.lor flags 0x80 else Z.land flags 0x7F in
  wr rAF LOW flags ;;
  tick 4.

Definition inc_8bit_c : M unit :=
  v <- rd rBC LOW ;;
  wr rBC LOW (v + 1) ;;
  v <- rd rBC LOW ;;
  wr rBC LOW (Z.land v 0xFF) ;;
  add_PC 1 ;;
  let flags := 0 in
  p <- rd_obj rBC ;;
  let flags := if Py.eq p (Py.Int 0) then Z.lor flags 0x80 else Z.land flags 0x7F in
  wr rAF LOW flags ;;
  tick 4.

Definition inc_8bit_d : M unit :=
  v <- rd rDE HIGH ;;
  wr rDE HIGH (v + 1) ;;
  v <- rd rDE HIGH ;;
  wr rDE HIGH (Z.land v 0xFF) ;;
  add_PC 1 ;;
  let flags := 0 in
  p <- rd_obj rDE ;;
  let flags := if Py.eq p (Py.Int 0) then Z.lor flags 0x80 else Z.land flags 0x7F in
  wr rAF LOW flags ;;
  tick 4.

Definition inc_8bit_e : M unit :=
  v <- rd rDE LOW ;;
  wr rDE LOW (v + 1) ;;
  v <- rd rDE LOW ;;
  wr rDE LOW (Z.land v 0xFF) ;;
  add_PC 1 ;;
  let flags := 0 in
  p <- rd_obj rDE ;;
  let flags := if Py.eq p (Py.Int 0) then Z.lor flags 0x80 else Z.land flags 0x7F in
  wr rAF LOW flags ;;
  tick 4.

Definition inc_8bit_h : M unit :=
  v <- rd rHL HIGH ;;
  wr rHL HIGH (v + 1) ;;
  v <- rd rHL HIGH ;;
  wr rHL HIGH (Z.land v 0xFF) ;;
  add_PC 1 ;;
  let flags := 0 in
  p <- rd_obj rHL ;;
  let flags := if Py.eq p (Py.Int 0) then Z.lor flags 0x80 else Z.land flags 0x7F in
  wr rAF LOW flags ;;
  tick 4.

Definition inc_16bit_bc : M unit :=
  h <- rd rBC HIGH ;;
  l <- rd rBC LOW ;;
  let val := Z.shiftl h 8 + l + 1 in
  let val := Z.land val 0xFFFF in
  wr rBC HIGH (Z.shiftr val 8) ;;
  wr rBC LOW (Z.land val 0xFF) ;;
  add_PC 1 ;;
  tick 8.

Definition inc_16bit_de : M unit :=
  h <- rd rDE HIGH ;;
  l <- rd rDE LOW ;;
  let val := Z.shiftl h 8 + l + 1 in
  let val := Z.land val 0xFFFF in
  wr rDE HIGH (Z.shiftr val 8) ;;
  wr rDE LOW (Z.land val 0xFF) ;;
  add_PC 1 ;;
  tick 8.

Definition inc_16bit_hl : M unit :=
  h <- rd rHL HIGH ;;
  l <- rd rHL LOW ;;
  let val := Z.shiftl h 8 + l + 1 in
  let val := Z.land val 0xFFFF in
  wr rHL HIGH (Z.shiftr val 8) ;;
  wr rHL LOW (Z.land val 0xFF) ;;
  add_PC 1 ;;
  tick 8.

Definition dec_8bit_b : M unit :=
  v <- rd rBC HIGH ;;
  wr rBC HIGH (v - 1) ;;
  v <- rd rBC HIGH ;;
  wr rBC HIGH (Z.land v 0xFF) ;;
  add_PC 1 ;;
  let flags := 0x40 in
  p <- rd_obj rBC ;;
  let flags := if Py.eq p (Py.Int 0) then Z.lor flags 0x80 else Z.land flags 0x7F in
  wr rAF LOW flags ;;
  tick 4.

Definition dec_8bit_c : M unit :=
  v <- rd rBC LOW ;;
  wr rBC LOW (v - 1) ;;
  v <- rd rBC LOW ;;
  wr rBC LOW (Z.land v 0xFF) ;;
  add_PC 1 ;;
  let flags := 0x40 in
  p <- rd_obj rBC ;;
  let flags := if Py.eq p (Py.Int 0) then Z.lor flags 0x80 else Z.land flags 0x7F in
  wr rAF LOW flags ;;
  tick 4.

Definition dec_8bit_d : M unit :=
  v <- rd rDE HIGH ;;
  wr rDE HIGH (v - 1) ;;
  v <- rd rDE HIGH ;;
  wr rDE HIGH (Z.land v 0xFF) ;;
  add_PC 1 ;;
  let flags := 0x40 in
  p <- rd_obj rDE ;;
  let flags := if Py.eq p (Py.Int 0) then Z.lor flags 0x80 else Z.land flags 0x7F in
  wr rAF LOW flags ;;
  tick 4.

Definition dec_8bit_e : M unit :=
  v <- rd rDE LOW ;;
  wr rDE LOW (v - 1) ;;
  v <- rd rDE LOW ;;
  wr rDE LOW (Z.land v 0xFF) ;;
  add_PC 1 ;;
  let flags := 0x40 in
  p <- rd_obj rDE ;;
  let flags := if Py.eq p (Py.Int 0) then Z.lor flags 0x80 else Z.land flags 0x7F in
  wr rAF LOW flags ;;
  tick 4.

Definition dec_8bit_h : M unit :=
  v <- rd rHL HIGH ;;
  wr rHL HIGH (v - 1) ;;
  v <- rd rHL HIGH ;;
  wr rHL HIGH (Z.land v 0xFF) ;;
  add_PC 1 ;;
  let flags := 0x40 in
  p <- rd_obj rHL ;;
  let flags := if Py.eq p (Py.Int 0) then Z.lor flags 0x80 else Z.land flags 0x7F in
  wr rAF LOW flags ;;
  tick 4.

Definition dec_16bit_bc : M unit :=
  h <- rd rBC HIGH ;;
  l <- rd rBC LOW ;;
  let val := Z.shiftl h 8 + l - 1 in
  let val := Z.land val 0xFFFF in
  wr rBC HIGH (Z.shiftr val 8) ;;
  wr rBC LOW (Z.land val 0xFF) ;;
  add_PC 1 ;;
  tick 8.

Definition dec_16bit_de : M unit :=
  h <- rd rDE HIGH ;;
  l <- rd rDE LOW ;;
  let val := Z.shiftl h 8 + l - 1 in
  let val := Z.land val 0xFFFF in
  wr rDE HIGH (Z.shiftr val 8) ;;
  wr rDE LOW (Z.land val 0xFF) ;;
  add_PC 1 ;;
  tick 8.

(** [self.__opcode_table]; a missing key is a [KeyError]. *)
Definition opcode_table (op_code : Z) : option (M unit) :=
  match op_code with
  | 0x00 => Some nop
  | 0x01 => Some ld_16bit_bc
  | 0x02 => Some ld_8bit_bc_a
  | 0x03 => Some inc_16bit_bc
  | 0x04 => Some inc_8bit_b
  | 0x05 => Some dec_8bit_b
  | 0x06 => Some ld_8bit_b_d8
  | 0x07 => Some rlca
  | 0x08 => Some ld_16bit_a16_sp
  | 0x09 => Some add_16bit_hl_bc
  | 0x0A => Some ld_8bit_a_bc
  | 0x0B => Some dec_16bit_bc
  | 0x0C => Some inc_8bit_c
  | 0x0D => Some dec_8bit_c
  | 0x0E => Some ld_8bit_c_d8
  | 0x0F => Some rrca
  | 0x10 => Some stop
  | 0x11 => Some ld_16bit_de
  | 0x12 => Some ld_8bit_de_a
  | 0x13 => Some inc_16bit_de
  | 0x14 => Some inc_8bit_d
  | 0x15 => Some dec_8bit_d
  | 0x16 => Some ld_8bit_d_d8
  | 0x17 => Some rla
  | 0x18 => Some jr_8bit_r8
  | 0x19 => Some add_16bit_hl_de
  | 0x1A => Some ld_8bit_a_de
  | 0x1B => Some dec_16bit_de
  | 0x1C => Some inc_8bit_e
  | 0x1D => Some dec_8bit_e
  | 0x1E => Some ld_8bit_e_d8
  | 0x1F => Some rra
  | 0x20 => Some jr_8bit_nz_r8
  | 0x21 => Some ld_16bit_hl
  | 0x22 => Some ld_8bit_hli_a
  | 0x23 => Some inc_16bit_hl
  | 0x24 => Some inc_8bit_h
  | 0x25 => Some dec_8bit_h
  | 0x26 => Some ld_8bit_h_d8
  | _ => None
  end.

(** [self.__opcode_table[op_code]()] *)
Definition dispatch (op_code : Z) : M unit :=
  match opcode_table op_code with
  | Some operation => operation
  | None => fun s => Raise KeyError s
  end.

(** [main_loop]: [while True] is unrolled [fuel] times; [None] means the loop
    is still running when the fuel is spent, [Some (Ok tt s)] that it left
    through [break] in state [s], [Some (Raise e s)] that [e] escaped it. *)
Fixpoint main_loop (fuel : nat) (s : cpu) : option (result unit) :=
  match fuel with
  | O => None
  | S fuel' =>
      match (pc <- rd_PC ;; fetch pc) s with
      | Raise e s' => Some (Raise e s')
      | Ok op_code s' =>
          if op_code =? 0x10 then
            Some ((add_PC 2 ;; tick 4) s')
          else
            match dispatch op_code s' with
            | Raise e s'' => Some (Raise e s'')
            | Ok _ s'' => main_loop fuel' s''
            end
      end
  end.

End Engine.

Arguments tick ticks%_nat s.

(** ** The cartridge parser of [cartridge/parser.py] *)

Module HeaderMemAddresses.
Definition ENTRY_POINT : Z := 0x100.
Definition LOGO : Z := 0x104.
Definition TITLE : Z := 0x134.
Definition MANUF_CODE : Z := 0x13F.
Definition CGB_FLAG : Z := 0x143.
Definition NEW_LICS_CODE : Z := 0x144.
Definition SGB_FLAG : Z := 0x146.
Definition CART_TYPE : Z := 0x147.
Definition ROM_SIZE : Z := 0x148.
Definition RAM_SIZE : Z := 0x149.
Definition DEST_CODE : Z := 0x14A.
Definition OLD_LICS_CODE : Z := 0x14B.
Definition MASK_ROM_VER_NUM : Z := 0x14C.
Definition HEADER_CHKSM : Z := 0x14D.
Definition GLOBAL_CHKSM : Z := 0x14E.
End HeaderMemAddresses.

Module HeaderSize.
Definition ENTRY_POINT : Z := 4.
Definition LOGO : Z := 48.
Definition TITLE : Z := 16.
Definition MANUF_CODE : Z := 4.
Definition CGB_FLAG : Z := 1.
Definition NEW_LICS_CODE : Z := 2.
Definition SGB_FLAG : Z := 1.
Definition CART_TYPE : Z := 1.
Definition ROM_SIZE : Z := 1.
Definition RAM_SIZE : Z := 1.
Definition DEST_CODE : Z := 1.
Definition OLD_LICS_CODE : Z := 1.
Definition MASK_ROM_VER_NUM : Z := 1.
Definition HEADER_CHKSM : Z := 1.
Definition GLOBAL_CHKSM : Z := 2.
End HeaderSize.

Module ROMParser.

(** The attributes [parse_file] assigns. *)
Record t : Type := mk {
  file_data : list byte;
  entry : list byte;
  logo : list byte;
  title : list byte;
  manufacture_code : list byte;
  cgb : list byte;
  new_license_code : list byte;
  sgb : list byte;
  cart_type : list byte;
  rom_size : list byte;
  ram_size : list byte;
  destination : list byte;
  old_license_code : list byte;
  mask_rom_version : list byte;
  header_checksum : list byte;
  global_checksum : list byte;
  game_data : list byte
}.

(** [file_data[addr : addr + size]] *)
Definition field (data : list byte) (addr size : Z) : list byte :=
  Py.slice data addr (addr + size).

(** [parse_file], as a function of the bytes [file.read()] returns. *)
Definition parse_file (data : list byte) : t :=
  mk data
     (field data HeaderMemAddresses.ENTRY_POINT HeaderSize.ENTRY_POINT)
     (field data HeaderMemAddresses.LOGO HeaderSize.LOGO)
     (field data HeaderMemAddresses.TITLE HeaderSize.TITLE)
     (field data HeaderMemAddresses.MANUF_CODE HeaderSize.MANUF_CODE)
     (field data HeaderMemAddresses.CGB_FLAG HeaderSize.CGB_FLAG)
     (field data HeaderMemAddresses.NEW_LICS_CODE HeaderSize.NEW_LICS_CODE)
     (field data HeaderMemAddresses.SGB_FLAG HeaderSize.SGB_FLAG)
     (field data HeaderMemAddresses.CART_TYPE HeaderSize.CART_TYPE)
     (field data HeaderMemAddresses.ROM_SIZE HeaderSize.ROM_SIZE)
     (field data HeaderMemAddresses.RAM_SIZE HeaderSize.RAM_SIZE)
     (field data HeaderMemAddresses.DEST_CODE HeaderSize.DEST_CODE)
     (field data HeaderMemAddresses.OLD_LICS_CODE HeaderSize.OLD_LICS_CODE)
     (field data HeaderMemAddresses.MASK_ROM_VER_NUM HeaderSize.MASK_ROM_VER_NUM)
     (field data HeaderMemAddresses.HEADER_CHKSM HeaderSize.HEADER_CHKSM)
     (field data HeaderMemAddresses.GLOBAL_CHKSM HeaderSize.GLOBAL_CHKSM)
     (Py.slice_from data
        (HeaderMemAddresses.GLOBAL_CHKSM + HeaderSize.GLOBAL_CHKSM + 1)).

End ROMParser.

(** The header attributes of a parsed file, each with the address and the
    size [parse_file] slices it at, in address order. *)
Definition header_fields (p : ROMParser.t) : list (list byte * (Z * Z)) :=
  [ (ROMParser.entry p, (HeaderMemAddresses.ENTRY_POINT, HeaderSize.ENTRY_POINT));
    (ROMParser.logo p, (HeaderMemAddresses.LOGO, HeaderSize.LOGO));
    (ROMParser.title p, (HeaderMemAddresses.TITLE, HeaderSize.TITLE));
    (ROMParser.manufacture_code p,
      (HeaderMemAddresses.MANUF_CODE, HeaderSize.MANUF_CODE));
    (ROMParser.cgb p, (HeaderMemAddresses.CGB_FLAG, HeaderSize.CGB_FLAG));
    (ROMParser.new_license_code p,
      (HeaderMemAddresses.NEW_LICS_CODE, HeaderSize.NEW_LICS_CODE));
    (ROMParser.sgb p, (HeaderMemAddresses.SGB_FLAG, HeaderSize.SGB_FLAG));
    (ROMParser.cart_type p, (HeaderMemAddresses.CART_TYPE, HeaderSize.CART_TYPE));
    (ROMParser.rom_size p, (HeaderMemAddresses.ROM_SIZE, HeaderSize.ROM_SIZE));
    (ROMParser.ram_size p, (HeaderMemAddresses.RAM_SIZE, HeaderSize.RAM_SIZE));
    (ROMParser.destination p, (HeaderMemAddresses.DEST_CODE, HeaderSize.DEST_CODE));
    (ROMParser.old_license_code p,
      (HeaderMemAddresses.OLD_LICS_CODE, HeaderSize.OLD_LICS_CODE));
    (ROMParser.mask_rom_version p,
      (HeaderMemAddresses.MASK_ROM_VER_NUM, HeaderSize.MASK_ROM_VER_NUM));
    (ROMParser.header_checksum p,
      (HeaderMemAddresses.HEADER_CHKSM, HeaderSize.HEADER_CHKSM));
    (ROMParser.global_checksum p,
      (HeaderMemAddresses.GLOBAL_CHKSM, HeaderSize.GLOBAL_CHKSM)) ].

(** The script at the bottom of [cpu.py]: parse the file, hand its
    [game_data] to a new CPU and run it. *)
Definition run_rom (data : list byte) (fuel : nat) : option (result unit) :=
  main_loop (ROMParser.game_data (ROMParser.parse_file data)) fuel init.

(** ** Vocabulary of the properties *)

(** A half holds a byte. *)
Definition byte_ok (v : Z) : Prop := 0 <= v <= 0xFF.

Definition halves_ok (p : pair) : Prop := byte_ok (hi p) /\ byte_ok (lo p).

(** The 16-bit value of a pair, [(HIGH << 8) + LOW] as the engine combines it. *)
Definition value16 (p : pair) : Z := Z.shiftl (hi p) 8 + lo p.

(** The flag bits of F. *)
Definition flag_Z (s : cpu) : bool := Z.testbit (lo (AF s)) 7.
Definition flag_N (s : cpu) : bool := Z.testbit (lo (AF s)) 6.
Definition flag_H (s : cpu) : bool := Z.testbit (lo (AF s)) 5.
Definition flag_C (s : cpu) : bool := Z.testbit (lo (AF s)) 4.

(** The 8-bit increments of the opcode table, each with the half it updates. *)
Definition inc_8bit : list (M unit * (reg * RegisterConstants)) :=
  [ (inc_8bit_b, (rBC, HIGH)); (inc_8bit_c, (rBC, LOW));
    (inc_8bit_d, (rDE, HIGH)); (inc_8bit_e, (rDE, LOW));
    (inc_8bit_h, (rHL, HIGH)) ].

(** The 8-bit decrements. *)
Definition dec_8bit : list (M unit * (reg * RegisterConstants)) :=
  [ (dec_8bit_b, (rBC, HIGH)); (dec_8bit_c, (rBC, LOW));
    (dec_8bit_d, (rDE, HIGH)); (dec_8bit_e, (rDE, LOW));
    (dec_8bit_h, (rHL, HIGH)) ].

(** The 16-bit increments and decrements, each with the pair it updates and
    the amount it adds. *)
Definition inc_dec_16bit : list (M unit * (reg * Z)) :=
  [ (inc_16bit_bc, (rBC, 1)); (inc_16bit_de, (rDE, 1)); (inc_16bit_hl, (rHL, 1));
    (dec_16bit_bc, (rBC, -1)); (dec_16bit_de, (rDE, -1)) ].

(** [add hl, rr], each with its source pair. *)
Definition add_16bit_hl : list (M unit * reg) :=
  [ (add_16bit_hl_bc, rBC); (add_16bit_hl_de, rDE) ].

(** [ld rr, d16], each with its destination pair. *)
Definition ld_16bit (game_data : list byte) : list (M unit * reg) :=
  [ (ld_16bit_bc game_data, rBC); (ld_16bit_de game_data, rDE);
    (ld_16bit_hl game_data, rHL) ].

(** Operations reading one immediate byte at [PC + 1] on every path. *)
Definition reads_d8 (game_data : list byte) : list (M unit) :=
  [ ld_8bit_b_d8 game_data; ld_8bit_c_d8 game_data; ld_8bit_d_d8 game_data;
    ld_8bit_e_d8 game_data; ld_8bit_h_d8 game_data; jr_8bit_r8 game_data ].

(** Operations reading two immediate bytes, at [PC + 1] and [PC + 2]. *)
Definition reads_d16 (game_data : list byte) : list (M unit) :=
  [ ld_16bit_bc game_data; ld_16bit_de game_data; ld_16bit_hl game_data;
    ld_16bit_a16_sp game_data ].

(** [ld r, d8], each with the half it loads. *)
Definition ld_8bit_d8 (game_data : list byte)
  : list (M unit * (reg * RegisterConstants)) :=
  [ (ld_8bit_b_d8 game_data, (rBC, HIGH)); (ld_8bit_c_d8 game_data, (rBC, LOW));
    (ld_8bit_d_d8 game_data, (rDE, HIGH)); (ld_8bit_e_d8 game_data, (rDE, LOW));
    (ld_8bit_h_d8 game_data, (rHL, HIGH)) ].

(** The increment and the decrement of the same half. *)
Definition inc_dec_8bit_pairs : list (M unit * M unit * (reg * RegisterConstants)) :=
  [ (inc_8bit_b, dec_8bit_b, (rBC, HIGH)); (inc_8bit_c, dec_8bit_c, (rBC, LOW));
    (inc_8bit_d, dec_8bit_d, (rDE, HIGH)); (inc_8bit_e, dec_8bit_e, (rDE, LOW));
    (inc_8bit_h, dec_8bit_h, (rHL, HIGH)) ].

(** The increment and the decrement of the same pair (HL has no decrement in
    the table). *)
Definition inc_dec_16bit_pairs : list (M unit * M unit * reg) :=
  [ (inc_16bit_bc, dec_16bit_bc, rBC); (inc_16bit_de, dec_16bit_de, rDE) ].

(** The state [s] after [n] bytes of instructions and [c] cycles that touched
    no register. *)
Definition advanced (n c : Z) (s : cpu) : cpu :=
  mkCPU (AF s) (BC s) (DE s) (HL s) (SP s) (PC s + n) (ticks s + c).

(** F holds nothing but N, H and C: the Z flag and the four unused bits are
    clear. *)
Definition Z_and_unused_clear (s : cpu) : Prop := Z.land (lo (AF s)) 0x8F = 0.

(** Calling an operation [n] times in a row. *)
Fixpoint times (n : nat) (operation : M unit) : M unit :=
  match n with
  | O => ret tt
  | S n' => operation ;; times n' operation
  end.

(** What the engine keeps true of its registers: halves are bytes, the stack
    pointer is a 16-bit value, the program counter is not negative. *)
Record regs_ok (s : cpu) : Prop := mkRegsOk {
  ok_AF : halves_ok (AF s);
  ok_BC : halves_ok (BC s);
  ok_DE : halves_ok (DE s);
  ok_HL : halves_ok (HL s);
  ok_SP : 0 <= SP s <= 0xFFFF;
  ok_PC : 0 <= PC s
}.

(** The masking invariant with the program counter held to 16 bits too. *)
Definition regs_masked (s : cpu) : Prop :=
  halves_ok (AF s) /\ halves_ok (BC s) /\ halves_ok (DE s) /\ halves_ok (HL s) /\
  0 <= SP s <= 0xFFFF /\ 0 <= PC s <= 0xFFFF.

(** What one operation keeps true between the state [s] it starts in and the
    state [s'] it ends in: the registers stay well formed, the stack pointer
    is not touched, the program counter does not go back. *)
Definition step_ok (s s' : cpu) : Prop :=
  regs_ok s' /\ SP s' = SP s /\ PC s <= PC s'.

(** ** Running straight-line operations *)

Lemma tick_run (n : nat) (s : cpu) :
  tick n s = Ok tt (set_ticks (ticks s + Z.of_nat n) s).
Proof.
  revert s; induction n as [|n IH]; intros s.
  - destruct s; cbv [tick ret set_ticks ticks AF BC DE HL SP PC Z.of_nat].
    now rewrite Z.add_0_r.
  - cbn [tick]. unfold bind, incr_ticks. rewrite IH.
    destruct s; cbv [set_ticks ticks AF BC DE HL SP PC].
    do 2 f_equal. lia.
Qed.

Ltac reduce_cpu :=
  cbv [bind ret rd wr rd_obj rd_PC wr_PC add_PC get_reg set_reg item set_item
       set_PC set_ticks as_list AF BC DE HL SP PC ticks hi lo final
       Py.eq Py.truthy Z.of_nat Pos.of_succ_nat Pos.succ].

Ltac run_cpu := reduce_cpu; rewrite ?tick_run; reduce_cpu.

(** ** The run loop and [stop] *)

Lemma nop_run (s : cpu) :
  nop s = Ok tt (mkCPU (AF s) (BC s) (DE s) (HL s) (SP s) (PC s + 1) (ticks s + 4)).
Proof. unfold nop. run_cpu. reflexivity. Qed.

(** Three runs of the model on concrete inputs: [rlca] on A = 0x85, and the
    run loop on the program [ld bc, 0x1234; inc b; stop] and on a program
    whose first byte is not in the opcode table. *)
Example rlca_0x85 :
  rlca (mkCPU (mkPair 0x85 0) (mkPair 0 0) (mkPair 0 0) (mkPair 0 0) 0 0 0) =
  Ok tt (mkCPU (mkPair 0x0B 0x10) (mkPair 0 0) (mkPair 0 0) (mkPair 0 0) 0 1 4).
Proof. reflexivity. Qed.

Example main_loop_ld_inc_stop :
  main_loop [x01; x12; x34; x04; x10; x00] 3 init =
  Some (Ok tt (mkCPU (mkPair 0 0) (mkPair 0x13 0x34) (mkPair 0 0) (mkPair 0 0) 0 6 20)).
Proof. reflexivity. Qed.

Example main_loop_unknown_opcode :
  main_loop [x27] 1 init = Some (Raise KeyError init).
Proof. reflexivity. Qed.

(** One iteration of the run loop. *)
Lemma main_loop_S (game_data : list byte) (fuel : nat) (s : cpu) :
  main_loop game_data (S fuel) s =
    match Py.getitem game_data (PC s) with
    | None => Some (Raise IndexError s)
    | Some op_code =>
        if op_code =? 0x10 then
          Some (Ok tt (mkCPU (AF s) (BC s) (DE s) (HL s) (SP s)
                             (PC s + 2) (ticks s + 4)))
        else
          match dispatch game_data op_code s with
          | Raise e s' => Some (Raise e s')
          | Ok _ s' => main_loop game_data fuel s'
          end
    end.
Proof.
  change (main_loop game_data (S fuel) s) with
    (match (pc <- rd_PC ;; fetch game_data pc) s with
     | Raise e s' => Some (Raise e s')
     | Ok op_code s' =>
         if op_code =? 0x10 then Some ((add_PC 2 ;; tick 4) s')
         else match dispatch game_data op_code s' with
              | Raise e s'' => Some (Raise e s'')
              | Ok _ s'' => main_loop game_data fuel s''
              end
     end).
  unfold bind at 1, rd_PC at 1, fetch.
  destruct (Py.getitem game_data (PC s)) as [op_code |]; [| reflexivity].
  destruct (op_code =? 0x10); [| reflexivity].
  f_equal. run_cpu. reflexivity.
Qed.

(** C1. Whatever the program memory, if the byte at the program counter is
    0x10 the run loop leaves through its [break] on the first iteration: PC
    has advanced by 2, 4 cycles were charged, and every other register is
    as before. *)
Theorem main_loop_stop (game_data : list byte) (s : cpu) (fuel : nat) :
  Py.getitem game_data (PC s) = Some 0x10 ->
  main_loop game_data (S fuel) s =
    Some (Ok tt (mkCPU (AF s) (BC s) (DE s) (HL s) (SP s) (PC s + 2) (ticks s + 4))).
Proof.
  intros Hop. rewrite main_loop_S, Hop. reflexivity.
Qed.

Lemma main_loop_stop_witness :
  Py.getitem [x10] (PC init) = Some 0x10 /\
  main_loop [x10] 1 init =
    Some (Ok tt (mkCPU (AF init) (BC init) (DE init) (HL init) (SP init)
                       (PC init + 2) (ticks init + 4))).
Proof.
  split; [reflexivity | apply (main_loop_stop [x10] init 0); reflexivity].
Defined.

(** ** Bit-level facts about masking and splitting *)

Lemma land_FF (v : Z) : Z.land v 0xFF = v mod 0x100.
Proof. change 0xFF with (Z.ones 8). now rewrite Z.land_ones by lia. Qed.

Lemma land_FFFF (v : Z) : Z.land v 0xFFFF = v mod 0x10000.
Proof. change 0xFFFF with (Z.ones 16). now rewrite Z.land_ones by lia. Qed.

Lemma land_0FFF (v : Z) : Z.land v 0x0FFF = v mod 0x1000.
Proof. change 0x0FFF with (Z.ones 12). now rewrite Z.land_ones by lia. Qed.

Lemma shiftl_8 (v : Z) : Z.shiftl v 8 = v * 0x100.
Proof. now rewrite Z.shiftl_mul_pow2 by lia. Qed.

Lemma shiftr_8 (v : Z) : Z.shiftr v 8 = v / 0x100.
Proof. now rewrite Z.shiftr_div_pow2 by lia. Qed.

Lemma byte_ok_mod (v : Z) : byte_ok (v mod 0x100).
Proof. unfold byte_ok. pose proof (Z.mod_pos_bound v 0x100). lia. Qed.

(** Splitting a 16-bit value into halves and combining them again. *)
Lemma split_value16 (v : Z) :
  0 <= v < 0x10000 ->
  halves_ok (mkPair (Z.shiftr v 8) (Z.land v 0xFF)) /\
  value16 (mkPair (Z.shiftr v 8) (Z.land v 0xFF)) = v.
Proof.
  intros Hv. unfold halves_ok, value16, byte_ok. cbn [hi lo].
  rewrite land_FF, shiftl_8, shiftr_8.
  pose proof (Z.mod_pos_bound v 0x100).
  pose proof (Z.div_mod v 0x100).
  assert (0 <= v / 0x100 <= 0xFF)
    by (split; [apply Z.div_pos | apply Z.lt_succ_r, Z.div_lt_upper_bound]; lia).
  lia.
Qed.

Lemma value16_range (p : pair) : halves_ok p -> 0 <= value16 p < 0x10000.
Proof.
  unfold halves_ok, byte_ok, value16. rewrite shiftl_8. lia.
Qed.

(** ** Indirect loads through a pair *)

(** C10. Each indirect load returns in the state it started from with PC
    advanced by 1 and 8 cycles charged: A, F and all other registers are as
    before, also for the variants named after loading A. The [hl+] variant
    differs only in HL, which then holds its old value plus 1 modulo
    0x10000. *)
Theorem indirect_loads_frame (s : cpu) :
  let s' := mkCPU (AF s) (BC s) (DE s) (HL s) (SP s) (PC s + 1) (ticks s + 8) in
  ld_8bit_a_bc s = Ok tt s' /\
  ld_8bit_a_de s = Ok tt s' /\
  ld_8bit_bc_a s = Ok tt s' /\
  ld_8bit_de_a s = Ok tt s' /\
  exists hl',
    ld_8bit_hli_a s =
      Ok tt (mkCPU (AF s) (BC s) (DE s) hl' (SP s) (PC s + 1) (ticks s + 8)) /\
    halves_ok hl' /\
    value16 hl' = (value16 (HL s) + 1) mod 0x10000.
Proof.
  cbv zeta. repeat split;
    try (cbv [ld_8bit_a_bc ld_8bit_a_de ld_8bit_bc_a ld_8bit_de_a];
         run_cpu; reflexivity).
  eexists. split.
  - unfold ld_8bit_hli_a. run_cpu. reflexivity.
  - rewrite land_FFFF.
    apply split_value16, Z.mod_pos_bound. lia.
Qed.

(** ** Immediate loads *)

(** C8. For [ld bc, d16], [ld de, d16] and [ld hl, d16]: when the two bytes
    after the opcode are [b1] and [b2], the pair ends as [[b1, b2]] (first
    byte in the high half, second in the low half), PC has advanced by 3
    and 12 cycles were charged; nothing else changes. *)
Theorem ld_16bit_spec (game_data : list byte) (operation : M unit) (r : reg)
    (s : cpu) (b1 b2 : Z) :
  In (operation, r) (ld_16bit game_data) ->
  Py.getitem game_data (PC s + 1) = Some b1 ->
  Py.getitem game_data (PC s + 2) = Some b2 ->
  operation s =
    Ok tt (set_ticks (ticks s + 12) (set_PC (PC s + 3) (set_reg r (mkPair b1 b2) s))).
Proof.
  intros Hin H1 H2. cbn [In ld_16bit] in Hin.
  destruct s as [af bc de hl sp pc tk]; cbn [PC] in H1, H2.
  repeat (destruct Hin as [Hin | Hin]); try contradiction;
    inversion Hin; subst; clear Hin;
    cbv [ld_16bit_bc ld_16bit_de ld_16bit_hl fetch];
    reduce_cpu; rewrite H1; reduce_cpu; rewrite H2; run_cpu; reflexivity.
Qed.

Lemma ld_16bit_spec_witness :
  let game_data := [x01; x12; x34] in
  In (ld_16bit_bc game_data, rBC) (ld_16bit game_data) /\
  Py.getitem game_data (PC init + 1) = Some 0x12 /\
  Py.getitem game_data (PC init + 2) = Some 0x34 /\
  ld_16bit_bc game_data init =
    Ok tt (mkCPU (AF init) (mkPair 0x12 0x34) (DE init) (HL init) (SP init) 3 12).
Proof.
  cbv zeta. split; [now left |]. split; [reflexivity |]. split; [reflexivity |].
  exact (ld_16bit_spec [x01; x12; x34] _ rBC init 0x12 0x34
           (or_introl eq_refl) eq_refl eq_refl).
Defined.

(** ** 16-bit addition into HL *)

Lemma shiftr_carry (x : Z) (n : Z) :
  0 < n -> 0 <= x < 2 * 2 ^ n ->
  (x < 2 ^ n /\ Z.shiftr x n = 0) \/ (2 ^ n <= x /\ Z.shiftr x n = 1).
Proof.
  intros Hn Hx. rewrite Z.shiftr_div_pow2 by lia.
  assert (0 < 2 ^ n) by (apply Z.pow_pos_nonneg; lia).
  destruct (Z_lt_le_dec x (2 ^ n)) as [Hlt | Hge].
  - left. split; [assumption | apply Z.div_small; lia].
  - right. split; [assumption |].
    symmetry. apply (Z.div_unique x (2 ^ n) 1 (x - 2 ^ n)); lia.
Qed.

(** The flags byte built by [add hl, rr] from two 16-bit operands. *)
Lemma add_16bit_flags (a b : Z) :
  0 <= a < 0x10000 -> 0 <= b < 0x10000 ->
  let bit_11_carry := Z.shiftr (Z.land a 0x0FFF + Z.land b 0x0FFF) 12 in
  let bit_15_carry := Z.shiftr (a + b) 16 in
  let flags := Z.lor (Z.lor 0 (Z.shiftl bit_11_carry 5)) (Z.shiftl bit_15_carry 4) in
  (Z.testbit flags 5 = true <-> 0x1000 <= a mod 0x1000 + b mod 0x1000) /\
  (Z.testbit flags 4 = true <-> 0x10000 <= a + b) /\
  Z.testbit flags 7 = false /\
  Z.testbit flags 6 = false /\
  byte_ok flags.
Proof.
  intros Ha Hb. cbv zeta. rewrite !land_0FFF.
  pose proof (Z.mod_pos_bound a 0x1000 ltac:(lia)).
  pose proof (Z.mod_pos_bound b 0x1000 ltac:(lia)).
  destruct (shiftr_carry (a mod 0x1000 + b mod 0x1000) 12) as [[H12 E12] | [H12 E12]];
    [lia | change (2 ^ 12) with 0x1000; lia | |];
    destruct (shiftr_carry (a + b) 16) as [[H16 E16] | [H16 E16]];
    try lia; try (change (2 ^ 16) with 0x10000; lia);
    change (2 ^ 12) with 0x1000 in H12; change (2 ^ 16) with 0x10000 in H16;
    rewrite E12, E16; unfold byte_ok; cbn;
    (repeat split; intros; try lia; try reflexivity; try discriminate).
Qed.

(** C4. [add hl, bc] and [add hl, de], started with byte-sized halves: HL
    receives the sum of the two pairs masked to 16 bits; H is set exactly
    when the low 12 bits of the operands add up past bit 11, C exactly when
    the full sum passes bit 15; Z and N are clear; PC has advanced by 1 and
    8 cycles were charged; A and the other pairs are as before. *)
Theorem add_16bit_hl_spec (operation : M unit) (r : reg) (s : cpu) :
  In (operation, r) add_16bit_hl ->
  halves_ok (HL s) ->
  halves_ok (get_reg r s) ->
  exists hl' f',
    operation s =
      Ok tt (mkCPU (mkPair (hi (AF s)) f') (BC s) (DE s) hl' (SP s)
                   (PC s + 1) (ticks s + 8)) /\
    halves_ok hl' /\
    value16 hl' = (value16 (HL s) + value16 (get_reg r s)) mod 0x10000 /\
    (Z.testbit f' 5 = true <->
       0x1000 <= value16 (HL s) mod 0x1000 + value16 (get_reg r s) mod 0x1000) /\
    (Z.testbit f' 4 = true <-> 0x10000 <= value16 (HL s) + value16 (get_reg r s)) /\
    Z.testbit f' 7 = false /\
    Z.testbit f' 6 = false.
Proof.
  intros Hin Hhl Hrr. cbn [In add_16bit_hl] in Hin.
  pose proof (value16_range _ Hhl) as Ra.
  pose proof (value16_range _ Hrr) as Rb.
  pose proof (add_16bit_flags _ _ Ra Rb) as Hf. cbv zeta in Hf.
  destruct Hf as (F5 & F4 & F7 & F6 & _).
  assert (Hm : 0 <= Z.land (value16 (HL s) + value16 (get_reg r s)) 0xFFFF < 0x10000)
    by (rewrite land_FFFF; apply Z.mod_pos_bound; lia).
  destruct (split_value16 _ Hm) as [Hh Hv].
  rewrite <- land_FFFF.
  destruct s as [af bc de hl sp pc tk].
  repeat (destruct Hin as [Hin | Hin]); try contradiction;
    inversion Hin; subst; clear Hin;
    cbv [add_16bit_hl_bc add_16bit_hl_de]; run_cpu;
    cbv [value16 get_reg HL BC DE] in *;
    (do 2 eexists; split; [reflexivity |]);
    (split; [exact Hh |]); (split; [exact Hv |]);
    auto.
Qed.

Lemma add_16bit_hl_spec_witness :
  let s := mkCPU (mkPair 0 0) (mkPair 0x00 0x01) (mkPair 0 0) (mkPair 0x0F 0xFF) 0 0 0 in
  halves_ok (HL s) /\ halves_ok (get_reg rBC s) /\
  exists hl' f',
    add_16bit_hl_bc s =
      Ok tt (mkCPU (mkPair (hi (AF s)) f') (BC s) (DE s) hl' (SP s)
                   (PC s + 1) (ticks s + 8)) /\
    halves_ok hl' /\
    value16 hl' = (value16 (HL s) + value16 (get_reg rBC s)) mod 0x10000 /\
    (Z.testbit f' 5 = true <->
       0x1000 <= value16 (HL s) mod 0x1000 + value16 (get_reg rBC s) mod 0x1000) /\
    (Z.testbit f' 4 = true <-> 0x10000 <= value16 (HL s) + value16 (get_reg rBC s)) /\
    Z.testbit f' 7 = false /\
    Z.testbit f' 6 = false.
Proof.
  intros s.
  assert (Hhl : halves_ok (HL s)) by (cbv; intuition discriminate).
  assert (Hbc : halves_ok (get_reg rBC s)) by (cbv; intuition discriminate).
  split; [exact Hhl |]. split; [exact Hbc |].
  exact (add_16bit_hl_spec add_16bit_hl_bc rBC s (or_introl eq_refl) Hhl Hbc).
Defined.

(** The two worked sums: 0x0FFF + 0x0001 sets H and not C; 0xFFFF + 0x0001
    sets both and leaves HL = 0x0000. *)
Example add_16bit_hl_bc_0FFF_0001 :
  add_16bit_hl_bc
    (mkCPU (mkPair 0 0) (mkPair 0x00 0x01) (mkPair 0 0) (mkPair 0x0F 0xFF) 0 0 0) =
  Ok tt (mkCPU (mkPair 0 0x20) (mkPair 0x00 0x01) (mkPair 0 0) (mkPair 0x10 0x00) 0 1 8).
Proof. reflexivity. Qed.

Example add_16bit_hl_de_FFFF_0001 :
  add_16bit_hl_de
    (mkCPU (mkPair 0 0) (mkPair 0 0) (mkPair 0x00 0x01) (mkPair 0xFF 0xFF) 0 0 0) =
  Ok tt (mkCPU (mkPair 0 0x30) (mkPair 0 0) (mkPair 0x00 0x01) (mkPair 0x00 0x00) 0 1 8).
Proof. reflexivity. Qed.

(** ** Increments and decrements *)

Ltac split_family Hin :=
  cbn [In app inc_8bit dec_8bit inc_dec_16bit add_16bit_hl reads_d8 reads_d16] in Hin;
  repeat (destruct Hin as [Hin | Hin]); try contradiction;
  inversion Hin; subst.

(** An 8-bit increment in closed form: the half is bumped and masked, F is
    overwritten with 0x00, PC advances by 1, 4 cycles are charged. *)
Lemma inc_8bit_run (operation : M unit) (r : reg) (i : RegisterConstants) (s : cpu) :
  In (operation, (r, i)) inc_8bit ->
  operation s =
    Ok tt (set_ticks (ticks s + 4)
            (set_reg rAF (mkPair (hi (AF s)) 0x00)
              (set_PC (PC s + 1)
                (set_reg r (set_item (get_reg r s) i
                              (Z.land (item (get_reg r s) i + 1) 0xFF)) s)))).
Proof.
  intros Hin. destruct s as [af bc de hl sp pc tk].
  split_family Hin;
    cbv [inc_8bit_b inc_8bit_c inc_8bit_d inc_8bit_e inc_8bit_h];
    run_cpu; reflexivity.
Qed.

(** An 8-bit decrement in closed form: as the increment, with F overwritten
    with 0x40. *)
Lemma dec_8bit_run (operation : M unit) (r : reg) (i : RegisterConstants) (s : cpu) :
  In (operation, (r, i)) dec_8bit ->
  operation s =
    Ok tt (set_ticks (ticks s + 4)
            (set_reg rAF (mkPair (hi (AF s)) 0x40)
              (set_PC (PC s + 1)
                (set_reg r (set_item (get_reg r s) i
                              (Z.land (item (get_reg r s) i - 1) 0xFF)) s)))).
Proof.
  intros Hin. destruct s as [af bc de hl sp pc tk].
  split_family Hin;
    cbv [dec_8bit_b dec_8bit_c dec_8bit_d dec_8bit_e dec_8bit_h];
    run_cpu; reflexivity.
Qed.

(** A 16-bit increment or decrement in closed form. *)
Lemma inc_dec_16bit_run (operation : M unit) (r : reg) (d : Z) (s : cpu) :
  In (operation, (r, d)) inc_dec_16bit ->
  operation s =
    Ok tt (set_ticks (ticks s + 8)
            (set_PC (PC s + 1)
              (set_reg r
                 (mkPair (Z.shiftr (Z.land (value16 (get_reg r s) + d) 0xFFFF) 8)
                    (Z.land (Z.land (value16 (get_reg r s) + d) 0xFFFF) 0xFF)) s))).
Proof.
  intros Hin. destruct s as [af bc de hl sp pc tk].
  split_family Hin;
    cbv [inc_16bit_bc inc_16bit_de inc_16bit_hl dec_16bit_bc dec_16bit_de];
    run_cpu; reflexivity.
Qed.

Lemma value16_inj (p q : pair) :
  halves_ok p -> halves_ok q -> value16 p = value16 q -> p = q.
Proof.
  destruct p as [ph pl], q as [qh ql].
  unfold halves_ok, byte_ok, value16; cbn [hi lo]. rewrite !shiftl_8.
  intros Hp Hq E. f_equal; lia.
Qed.

Section Wraparound.

Variable operation : M unit.
Variable get : cpu -> Z.
Variable good : cpu -> Prop.
Variables d m : Z.

Hypothesis m_pos : 0 < m.
Hypothesis step :
  forall s, exists s', operation s = Ok tt s' /\ good s' /\ get s' = (get s + d) mod m.

(** [n] calls shift the observed register by [n * d] modulo [m]. *)
Lemma times_shift (n : nat) :
  forall s, good s -> 0 <= get s < m ->
  exists s',
    times n operation s = Ok tt s' /\ good s' /\
    get s' = (get s + d * Z.of_nat n) mod m.
Proof.
  induction n as [|n IH]; intros s Hg Hr.
  - exists s. cbn [times]. unfold ret. repeat split; auto.
    rewrite Z.mul_0_r, Z.add_0_r, Z.mod_small; auto.
  - destruct (step s) as (s1 & E1 & G1 & V1).
    destruct (IH s1 G1) as (s' & E & G & V).
    { rewrite V1. apply Z.mod_pos_bound; assumption. }
    exists s'. cbn [times]. unfold bind. rewrite E1. repeat split; auto.
    rewrite V, V1, Zplus_mod_idemp_l. f_equal. lia.
Qed.

(** [m] calls bring the observed register back. *)
Lemma times_period (s : cpu) :
  good s -> 0 <= get s < m ->
  exists s', times (Z.to_nat m) operation s = Ok tt s' /\ good s' /\ get s' = get s.
Proof.
  intros Hg Hr.
  destruct (times_shift (Z.to_nat m) s Hg Hr) as (s' & E & G & V).
  exists s'. repeat split; auto.
  rewrite V, Z2Nat.id, Z_mod_plus_full, Z.mod_small by lia.
  reflexivity.
Qed.

End Wraparound.

Lemma inc_dec_8bit_step (operation : M unit) (r : reg) (i : RegisterConstants) :
  In (operation, (r, i)) (inc_8bit ++ dec_8bit) ->
  exists d, forall s, exists s',
    operation s = Ok tt s' /\ True /\
    item (get_reg r s') i = (item (get_reg r s) i + d) mod 0x100.
Proof.
  intros Hin. apply in_app_or in Hin. destruct Hin as [Hin | Hin].
  - exists 1. intros s. eexists. split; [apply (inc_8bit_run _ r i s Hin) |].
    split; [exact I |]. rewrite <- land_FF.
    destruct s as [af bc de hl sp pc tk]. split_family Hin; reflexivity.
  - exists (-1). intros s. eexists. split; [apply (dec_8bit_run _ r i s Hin) |].
    split; [exact I |]. rewrite <- land_FF.
    destruct s as [af bc de hl sp pc tk]. split_family Hin; reflexivity.
Qed.

Lemma inc_dec_16bit_step (operation : M unit) (r : reg) (d : Z) (s : cpu) :
  In (operation, (r, d)) inc_dec_16bit ->
  exists s',
    operation s = Ok tt s' /\ halves_ok (get_reg r s') /\
    value16 (get_reg r s') = (value16 (get_reg r s) + d) mod 0x10000.
Proof.
  intros Hin. eexists. split; [apply (inc_dec_16bit_run _ r d s Hin) |].
  assert (Hm : 0 <= Z.land (value16 (get_reg r s) + d) 0xFFFF < 0x10000)
    by (rewrite land_FFFF; apply Z.mod_pos_bound; lia).
  destruct (split_value16 _ Hm) as [Hh Hv].
  rewrite <- land_FFFF.
  destruct s as [af bc de hl sp pc tk].
  split_family Hin; (split; [exact Hh | exact Hv]).
Qed.

(** C9. Started with the affected register in range, 256 calls of an 8-bit
    increment or decrement all return and leave that half with the value it
    started with, and 65536 calls of a 16-bit increment or decrement all
    return and leave that pair with the halves it started with. *)
Theorem inc_dec_wraparound :
  (forall operation r i s,
     In (operation, (r, i)) (inc_8bit ++ dec_8bit) ->
     byte_ok (item (get_reg r s) i) ->
     exists s',
       times 256 operation s = Ok tt s' /\
       item (get_reg r s') i = item (get_reg r s) i) /\
  (forall operation r d s,
     In (operation, (r, d)) inc_dec_16bit ->
     halves_ok (get_reg r s) ->
     exists s',
       times (Z.to_nat 0x10000) operation s = Ok tt s' /\
       get_reg r s' = get_reg r s).
Proof.
  split.
  - intros operation r i s Hin Hb.
    destruct (inc_dec_8bit_step operation r i Hin) as (d & Hstep).
    destruct (times_period operation (fun s => item (get_reg r s) i)
                (fun _ => True) d 0x100 ltac:(lia) Hstep s I)
      as (s' & E & _ & V).
    { unfold byte_ok in Hb. lia. }
    exists s'. split; [exact E | exact V].
  - intros operation r d s Hin Hh.
    destruct (times_period operation (fun s => value16 (get_reg r s))
                (fun s => halves_ok (get_reg r s)) d 0x10000 ltac:(lia)
                (fun s0 => inc_dec_16bit_step operation r d s0 Hin) s Hh
                (value16_range _ Hh))
      as (s' & E & G & V).
    exists s'. split; [exact E |].
    apply value16_inj; assumption.
Qed.

Lemma inc_dec_wraparound_witness :
  (In (inc_8bit_b, (rBC, HIGH)) (inc_8bit ++ dec_8bit) /\
   byte_ok (item (get_reg rBC init) HIGH) /\
   exists s',
     times 256 inc_8bit_b init = Ok tt s' /\
     item (get_reg rBC s') HIGH = item (get_reg rBC init) HIGH) /\
  (In (dec_16bit_de, (rDE, -1)) inc_dec_16bit /\
   halves_ok (get_reg rDE init) /\
   exists s',
     times (Z.to_nat 0x10000) dec_16bit_de init = Ok tt s' /\
     get_reg rDE s' = get_reg rDE init).
Proof.
  assert (H8 : In (inc_8bit_b, (rBC, HIGH)) (inc_8bit ++ dec_8bit)) by (now left).
  assert (B8 : byte_ok (item (get_reg rBC init) HIGH)) by (cbv; intuition discriminate).
  assert (H16 : In (dec_16bit_de, (rDE, -1)) inc_dec_16bit)
    by (do 4 right; now left).
  assert (B16 : halves_ok (get_reg rDE init)) by (cbv; intuition discriminate).
  split.
  - split; [exact H8 |]. split; [exact B8 |].
    exact (proj1 inc_dec_wraparound inc_8bit_b rBC HIGH init H8 B8).
  - split; [exact H16 |]. split; [exact B16 |].
    exact (proj2 inc_dec_wraparound dec_16bit_de rDE (-1) init H16 B16).
Defined.

(** ** Flags written by the 8-bit increments and decrements *)

(** The zero test of these operations compares the pair object, a list,
    with the integer 0, and Python never finds the two equal. *)
Lemma pair_never_equals_int (p : pair) (z : Z) : Py.eq (as_list p) (Py.Int z) = false.
Proof. reflexivity. Qed.

(** Every 8-bit increment or decrement returns with Z clear; N is clear
    after an increment and set after a decrement. *)
Lemma inc_dec_8bit_Z_N (operation : M unit) (r : reg) (i : RegisterConstants) (s : cpu) :
  (In (operation, (r, i)) inc_8bit ->
   flag_Z (final (operation s)) = false /\ flag_N (final (operation s)) = false) /\
  (In (operation, (r, i)) dec_8bit ->
   flag_Z (final (operation s)) = false /\ flag_N (final (operation s)) = true).
Proof.
  split; intros Hin.
  - rewrite (inc_8bit_run _ r i s Hin). split; reflexivity.
  - rewrite (dec_8bit_run _ r i s Hin). split; reflexivity.
Qed.

(** C2, the engine at B = 0xFF, C = 0x00: [inc_8bit_b] leaves the pair BC at
    [[0x00, 0x00]], so the whole pair is zero, and still returns with F = 0x00,
    the Z flag clear; [dec_8bit_b] from B = 0x01, C = 0x00 likewise leaves
    BC zero and F = 0x40, N set and Z clear. *)
Theorem inc_8bit_b_zero_pair_Z_clear :
  let s := mkCPU (mkPair 0 0) (mkPair 0xFF 0x00) (mkPair 0 0) (mkPair 0 0) 0 0 0 in
  let t := mkCPU (mkPair 0 0) (mkPair 0x01 0x00) (mkPair 0 0) (mkPair 0 0) 0 0 0 in
  (inc_8bit_b s =
     Ok tt (mkCPU (mkPair 0 0x00) (mkPair 0x00 0x00) (mkPair 0 0) (mkPair 0 0) 0 1 4) /\
   value16 (BC (final (inc_8bit_b s))) = 0 /\
   flag_Z (final (inc_8bit_b s)) = false /\
   flag_N (final (inc_8bit_b s)) = false) /\
  (dec_8bit_b t =
     Ok tt (mkCPU (mkPair 0 0x40) (mkPair 0x00 0x00) (mkPair 0 0) (mkPair 0 0) 0 1 4) /\
   value16 (BC (final (dec_8bit_b t))) = 0 /\
   flag_Z (final (dec_8bit_b t)) = false /\
   flag_N (final (dec_8bit_b t)) = true).
Proof. cbv zeta. repeat split. Qed.

(** C7, as the engine has it. Every 8-bit increment or decrement returns,
    and returns with the C flag (bit 4 of F) clear whatever it was before;
    so C has the same value after the operation as before exactly when it
    was clear before. *)
Theorem inc_dec_8bit_clears_C (operation : M unit) (r : reg) (i : RegisterConstants)
    (s : cpu) :
  In (operation, (r, i)) (inc_8bit ++ dec_8bit) ->
  exists s',
    operation s = Ok tt s' /\
    flag_C s' = false /\
    (flag_C s' = flag_C s <-> flag_C s = false).
Proof.
  intros Hin.
  assert (H : exists s', operation s = Ok tt s' /\ flag_C s' = false).
  { apply in_app_or in Hin. destruct Hin as [Hin | Hin]; eexists.
    - split; [apply (inc_8bit_run _ r i s Hin) | reflexivity].
    - split; [apply (dec_8bit_run _ r i s Hin) | reflexivity]. }
  destruct H as (s' & Hrun & HC). exists s'.
  split; [exact Hrun |]. split; [exact HC |].
  rewrite HC. split; intros E; symmetry; exact E.
Qed.

Lemma inc_dec_8bit_clears_C_witness :
  let s := mkCPU (mkPair 0 0x10) (mkPair 0 0) (mkPair 0 0) (mkPair 0 0) 0 0 0 in
  In (inc_8bit_b, (rBC, HIGH)) (inc_8bit ++ dec_8bit) /\
  exists s',
    inc_8bit_b s = Ok tt s' /\
    flag_C s' = false /\
    (flag_C s' = flag_C s <-> flag_C s = false).
Proof.
  intros s.
  assert (Hin : In (inc_8bit_b, (rBC, HIGH)) (inc_8bit ++ dec_8bit)) by (now left).
  split; [exact Hin |].
  exact (inc_dec_8bit_clears_C inc_8bit_b rBC HIGH s Hin).
Defined.

(** C7 fails as stated: with F = 0x10 the C flag is set before [inc_8bit_b]
    and clear after it. *)
Lemma inc_8bit_b_changes_C :
  let s := mkCPU (mkPair 0 0x10) (mkPair 0 0) (mkPair 0 0) (mkPair 0 0) 0 0 0 in
  flag_C s = true /\
  inc_8bit_b s =
    Ok tt (mkCPU (mkPair 0 0x00) (mkPair 1 0) (mkPair 0 0) (mkPair 0 0) 0 1 4) /\
  flag_C (final (inc_8bit_b s)) = false.
Proof. cbv zeta. repeat split. Qed.

(** ** Relative jumps *)

Lemma land_0x80_testbit (f : Z) : (Z.land f 0x80 =? 0) = negb (Z.testbit f 7).
Proof.
  destruct (Z.testbit f 7) eqn:E; cbn [negb].
  - apply Z.eqb_neq. intros H0.
    assert (Hb : Z.testbit (Z.land f 0x80) 7 = true)
      by (rewrite Z.land_spec, E; reflexivity).
    rewrite H0 in Hb. discriminate Hb.
  - apply Z.eqb_eq, Z.bits_inj'. intros n Hn.
    rewrite Z.land_spec, Z.bits_0. change 0x80 with (2 ^ 7).
    rewrite Z.pow2_bits_eqb by lia.
    destruct (Z.eqb_spec 7 n) as [<- | _]; [rewrite E |]; auto using andb_false_r.
Qed.

(** [jr r8] in closed form: PC receives PC plus the byte after the opcode,
    with no further advance, and 12 cycles are charged. *)
Lemma jr_8bit_r8_run (game_data : list byte) (s : cpu) (d : Z) :
  Py.getitem game_data (PC s + 1) = Some d ->
  jr_8bit_r8 game_data s = Ok tt (set_ticks (ticks s + 12) (set_PC (PC s + d) s)).
Proof.
  intros Hd. destruct s as [af bc de hl sp pc tk]. cbn [PC] in Hd.
  cbv [jr_8bit_r8 fetch]. reduce_cpu. rewrite Hd. run_cpu. reflexivity.
Qed.

(** [jr nz, r8] with Z set: 8 cycles are charged and nothing else happens;
    PC keeps pointing at the jump itself. *)
Lemma jr_8bit_nz_r8_not_taken (game_data : list byte) (s : cpu) :
  flag_Z s = true ->
  jr_8bit_nz_r8 game_data s = Ok tt (set_ticks (ticks s + 8) s).
Proof.
  unfold flag_Z. intros HZ. destruct s as [af bc de hl sp pc tk].
  destruct af as [a f]. cbn [AF lo] in HZ.
  cbv [jr_8bit_nz_r8]. reduce_cpu.
  rewrite land_0x80_testbit, HZ. cbn [negb]. run_cpu. reflexivity.
Qed.

(** [jr nz, r8] with Z clear behaves as [jr r8]. *)
Lemma jr_8bit_nz_r8_taken (game_data : list byte) (s : cpu) :
  flag_Z s = false ->
  jr_8bit_nz_r8 game_data s = jr_8bit_r8 game_data s.
Proof.
  unfold flag_Z. intros HZ. destruct s as [af bc de hl sp pc tk].
  destruct af as [a f]. cbn [AF lo] in HZ.
  cbv [jr_8bit_nz_r8 jr_8bit_r8]. reduce_cpu.
  rewrite land_0x80_testbit, HZ. reflexivity.
Qed.

(** Once the run loop meets [jr nz, r8] with Z set it fetches the same jump
    again on every iteration: no amount of fuel lets it leave. *)
Lemma main_loop_jr_nz_spins (game_data : list byte) (fuel : nat) :
  forall s,
    Py.getitem game_data (PC s) = Some 0x20 ->
    flag_Z s = true ->
    main_loop game_data fuel s = None.
Proof.
  induction fuel as [|fuel IH]; intros s Hop HZ; [reflexivity |].
  rewrite main_loop_S, Hop. cbn [Z.eqb Pos.eqb]. unfold dispatch. cbn [opcode_table].
  rewrite (jr_8bit_nz_r8_not_taken game_data s HZ).
  apply IH; destruct s; assumption.
Qed.

(** C3, the engine at PC = 0x100 with the bytes 0x20, 0x05 there and Z set:
    [jr nz, r8] charges 8 cycles and returns with PC still 0x100, not
    0x102, so no instruction-length advance is applied. What is said of
    [jr r8] holds: with the bytes 0x18, 0x05 at PC = 0x100 it charges 12
    cycles and returns with PC = 0x105. *)
Theorem jr_8bit_nz_r8_no_advance :
  let s := mkCPU (mkPair 0 0x80) (mkPair 0 0) (mkPair 0 0) (mkPair 0 0) 0 0x100 0 in
  let nz := repeat x00 0x100 ++ [x20; x05] in
  let jr := repeat x00 0x100 ++ [x18; x05] in
  Py.getitem nz (PC s) = Some 0x20 /\
  Py.getitem nz (PC s + 1) = Some 0x05 /\
  flag_Z s = true /\
  jr_8bit_nz_r8 nz s =
    Ok tt (mkCPU (mkPair 0 0x80) (mkPair 0 0) (mkPair 0 0) (mkPair 0 0) 0 0x100 8) /\
  jr_8bit_r8 jr s =
    Ok tt (mkCPU (mkPair 0 0x80) (mkPair 0 0) (mkPair 0 0) (mkPair 0 0) 0 0x105 12).
Proof. cbv zeta. repeat split; vm_compute; reflexivity. Qed.

(** ** Fetching past the end of the program memory *)

Lemma getitem_past_end (data : list byte) (i : Z) :
  Z.of_nat (length data) <= i -> Py.getitem data i = None.
Proof.
  intros Hi. unfold Py.getitem.
  destruct (Z.ltb_spec i 0) as [Hneg | _]; [lia |].
  destruct (Z.ltb_spec i (Z.of_nat (length data))) as [Hlt | _]; [lia |].
  now rewrite andb_false_r.
Qed.

(** A byte read from the program memory is a byte. *)
Lemma getitem_byte (data : list byte) (i b : Z) :
  Py.getitem data i = Some b -> byte_ok b.
Proof.
  unfold Py.getitem.
  destruct (_ && _); [| discriminate].
  destruct (nth_error data _) as [x |]; [| discriminate].
  cbn [option_map]. intros [= <-]. unfold byte_ok.
  pose proof (Byte.to_N_bounded x). lia.
Qed.

(** C5. With the program memory of any length [n]: indexing it at [i >= n]
    is an [IndexError]; the run loop started with PC >= n raises it at the
    opcode fetch, in the state it started from; every operation that reads
    one immediate byte raises it when PC + 1 >= n (the conditional jump when
    Z is clear, since with Z set it reads nothing); every operation that reads
    two immediate bytes raises it when PC + 2 >= n, without advancing PC or
    charging cycles. No byte is made up and no index wraps. *)
Theorem fetch_past_end_raises (game_data : list byte) (s : cpu) :
  let n := Z.of_nat (length game_data) in
  (forall i, n <= i -> Py.getitem game_data i = None) /\
  (forall i, n <= i -> fetch game_data i s = Raise IndexError s) /\
  (n <= PC s ->
   forall fuel, main_loop game_data (S fuel) s = Some (Raise IndexError s)) /\
  (n <= PC s + 1 ->
   forall operation, In operation (reads_d8 game_data) ->
   operation s = Raise IndexError s) /\
  (n <= PC s + 1 -> flag_Z s = false ->
   jr_8bit_nz_r8 game_data s = Raise IndexError s) /\
  (n <= PC s + 2 ->
   forall operation, In operation (reads_d16 game_data) ->
   exists s',
     operation s = Raise IndexError s' /\ PC s' = PC s /\ ticks s' = ticks s).
Proof.
  cbv zeta.
  assert (Hfetch : forall i, Z.of_nat (length game_data) <= i ->
                             fetch game_data i s = Raise IndexError s).
  { intros i Hi. unfold fetch. now rewrite getitem_past_end. }
  assert (Hd8 : Z.of_nat (length game_data) <= PC s + 1 ->
                jr_8bit_r8 game_data s = Raise IndexError s).
  { intros Hi. apply getitem_past_end in Hi.
    destruct s as [af bc de hl sp pc tk]. cbn [PC] in Hi.
    cbv [jr_8bit_r8 fetch]. reduce_cpu. rewrite Hi. reflexivity. }
  split; [apply getitem_past_end |].
  split; [exact Hfetch |].
  split; [| split; [| split]].
  - intros Hi fuel. now rewrite main_loop_S, getitem_past_end.
  - intros Hi operation Hin. specialize (Hd8 Hi). apply getitem_past_end in Hi.
    destruct s as [af bc de hl sp pc tk]. cbn [PC] in Hi.
    split_family Hin; try exact Hd8;
      cbv [ld_8bit_b_d8 ld_8bit_c_d8 ld_8bit_d_d8 ld_8bit_e_d8 ld_8bit_h_d8 fetch];
      reduce_cpu; rewrite Hi; reflexivity.
  - intros Hi HZ. rewrite (jr_8bit_nz_r8_taken game_data s HZ). auto.
  - intros Hi operation Hin. apply getitem_past_end in Hi.
    destruct s as [af bc de hl sp pc tk]. cbn [PC] in Hi.
    split_family Hin;
      cbv [ld_16bit_bc ld_16bit_de ld_16bit_hl ld_16bit_a16_sp fetch];
      reduce_cpu;
      (destruct (Py.getitem game_data (pc + 1)) as [b1 |];
       reduce_cpu; rewrite ?Hi; eexists; repeat split).
Qed.

Lemma fetch_past_end_raises_witness :
  Z.of_nat (length [x06]) <= PC init + 1 /\
  In (ld_8bit_b_d8 [x06]) (reads_d8 [x06]) /\
  ld_8bit_b_d8 [x06] init = Raise IndexError init.
Proof.
  assert (Hn : Z.of_nat (length [x06]) <= PC init + 1) by (cbv; discriminate).
  assert (Hin : In (ld_8bit_b_d8 [x06]) (reads_d8 [x06])) by (now left).
  split; [exact Hn |]. split; [exact Hin |].
  exact (proj1 (proj2 (proj2 (proj2 (fetch_past_end_raises [x06] init))))
           Hn (ld_8bit_b_d8 [x06]) Hin).
Defined.

(** ** The register invariant *)

Lemma byte_ok_land (v : Z) : byte_ok (Z.land v 0xFF).
Proof. rewrite land_FF. apply byte_ok_mod. Qed.

Lemma byte_ok_lor (a b : Z) : byte_ok a -> byte_ok b -> byte_ok (Z.lor a b).
Proof.
  unfold byte_ok. intros Ha Hb.
  rewrite <- (Z.mod_small a 0x100), <- (Z.mod_small b 0x100) by lia.
  rewrite <- !land_FF, <- Z.land_lor_distr_l. apply byte_ok_land.
Qed.

Lemma land_1 (a : Z) : Z.land a 1 = a mod 2.
Proof. exact (Z.land_ones a 1 ltac:(lia)). Qed.

Lemma carry_bit7 (a : Z) : 0 <= Z.shiftr (Z.land a 0x80) 7 <= 1.
Proof.
  rewrite Z.shiftr_land. change (Z.shiftr 0x80 7) with 1. rewrite land_1.
  pose proof (Z.mod_pos_bound (Z.shiftr a 7) 2). lia.
Qed.

Lemma carry_bit4 (f : Z) : 0 <= Z.shiftr (Z.land f 0x10) 4 <= 1.
Proof.
  rewrite Z.shiftr_land. change (Z.shiftr 0x10 4) with 1. rewrite land_1.
  pose proof (Z.mod_pos_bound (Z.shiftr f 4) 2). lia.
Qed.

Lemma carry_bit0 (a : Z) : 0 <= Z.land a 0x01 <= 1.
Proof. rewrite land_1. pose proof (Z.mod_pos_bound a 2). lia. Qed.

Lemma byte_ok_carry_flag (c : Z) : 0 <= c <= 1 -> byte_ok (Z.shiftl c 4).
Proof. unfold byte_ok. rewrite Z.shiftl_mul_pow2 by lia. lia. Qed.

Lemma byte_ok_rotl (a c : Z) :
  0 <= c <= 1 -> byte_ok (Z.lor (Z.land (Z.shiftl a 1) 0xFF) c).
Proof.
  intros Hc. apply byte_ok_lor; [apply byte_ok_land | unfold byte_ok; lia].
Qed.

Lemma byte_ok_rotr (a c : Z) :
  byte_ok a -> 0 <= c <= 1 -> byte_ok (Z.lor (Z.shiftr a 1) (Z.shiftl c 7)).
Proof.
  unfold byte_ok. intros Ha Hc. apply byte_ok_lor; unfold byte_ok.
  - rewrite Z.shiftr_div_pow2 by lia. change (2 ^ 1) with 2.
    split; [apply Z.div_pos; lia | apply Z.lt_succ_r, Z.div_lt_upper_bound; lia].
  - rewrite Z.shiftl_mul_pow2 by lia. lia.
Qed.

Lemma halves_ok_split (v : Z) :
  halves_ok (mkPair (Z.shiftr (Z.land v 0xFFFF) 8) (Z.land (Z.land v 0xFFFF) 0xFF)).
Proof.
  apply split_value16. rewrite land_FFFF. apply Z.mod_pos_bound. lia.
Qed.

Lemma add_16bit_flags_byte (h l h' l' : Z) :
  byte_ok h -> byte_ok l -> byte_ok h' -> byte_ok l' ->
  byte_ok
    (Z.lor
       (Z.lor 0
          (Z.shiftl
             (Z.shiftr
                (Z.land (Z.shiftl h 8 + l) 0x0FFF + Z.land (Z.shiftl h' 8 + l') 0x0FFF)
                12) 5))
       (Z.shiftl (Z.shiftr (Z.shiftl h 8 + l + (Z.shiftl h' 8 + l')) 16) 4)).
Proof.
  intros Hh Hl Hh' Hl'.
  apply (add_16bit_flags (value16 (mkPair h l)) (value16 (mkPair h' l')));
    apply value16_range; split; assumption.
Qed.

Create HintDb cpu_ok.

#[local] Hint Resolve byte_ok_land byte_ok_lor byte_ok_rotl byte_ok_rotr
  byte_ok_carry_flag carry_bit7 carry_bit4 carry_bit0 halves_ok_split
  add_16bit_flags_byte : cpu_ok.

Ltac run_branches :=
  repeat (reduce_cpu; rewrite ?tick_run;
          try match goal with
              | |- context [Py.getitem ?d ?i] =>
                  let E := fresh "E" in
                  destruct (Py.getitem d i) eqn:E;
                  [apply getitem_byte in E |]
              end;
          try match goal with
              | |- context [Z.eqb ?x 0] => destruct (Z.eqb x 0)
              end;
          cbn [negb]).

Ltac solve_regs_ok :=
  unfold step_ok; split; [constructor | split];
  cbn [AF BC DE HL SP PC ticks];
  try solve [ reflexivity
            | split; cbn [hi lo]; auto with cpu_ok
            | auto with cpu_ok
            | split; cbn [hi lo]; [assumption | cbv; split; discriminate]
            | unfold byte_ok in *; lia ].

Lemma operation_keeps_regs_ok (game_data : list byte) (op_code : Z)
    (operation : M unit) (s : cpu) :
  opcode_table game_data op_code = Some operation ->
  regs_ok s ->
  step_ok s (final (operation s)).
Proof.
  intros Hop Hok. unfold opcode_table in Hop.
  destruct s as [[a f] [b c] [d e] [h l] sp pc tk].
  destruct Hok as [[Ha Hf] [Hb Hc] [Hd He] [Hh Hl] Hsp Hpc].
  cbn [AF BC DE HL SP PC hi lo] in *.
  repeat match type of Hop with
         | context [match ?p with _ => _ end] => destruct p
         end; try discriminate Hop.
  all: injection Hop as <-.
  all: cbv [nop stop rlca rla rrca rra jr_8bit_r8 jr_8bit_nz_r8
            add_16bit_hl_bc add_16bit_hl_de
            ld_8bit_a_bc ld_8bit_a_de ld_8bit_bc_a ld_8bit_de_a ld_8bit_hli_a
            ld_8bit_b_d8 ld_8bit_c_d8 ld_8bit_d_d8 ld_8bit_e_d8 ld_8bit_h_d8
            ld_16bit_bc ld_16bit_de ld_16bit_hl ld_16bit_a16_sp
            inc_8bit_b inc_8bit_c inc_8bit_d inc_8bit_e inc_8bit_h
            inc_16bit_bc inc_16bit_de inc_16bit_hl
            dec_8bit_b dec_8bit_c dec_8bit_d dec_8bit_e dec_8bit_h
            dec_16bit_bc dec_16bit_de fetch].
  all: run_branches.
  all: solve_regs_ok.
Qed.

(** The run loop only ever ends, by [break] or by an exception, in a state
    with well-formed registers. *)
Lemma main_loop_regs_ok (game_data : list byte) (fuel : nat) :
  forall s r,
    regs_ok s -> main_loop game_data fuel s = Some r -> regs_ok (final r).
Proof.
  induction fuel as [|fuel IH]; intros s r Hok Hrun; [discriminate Hrun |].
  rewrite main_loop_S in Hrun.
  destruct (Py.getitem game_data (PC s)) as [op_code |] eqn:Eop.
  - destruct (op_code =? 0x10).
    + injection Hrun as <-. destruct Hok as [? ? ? ? ? Hpc].
      constructor; cbn [final AF BC DE HL SP PC]; auto; lia.
    + unfold dispatch in Hrun.
      destruct (opcode_table game_data op_code) as [operation |] eqn:Etab.
      * pose proof (operation_keeps_regs_ok _ _ _ s Etab Hok) as [Hok' _].
        destruct (operation s) as [[] s' | e s'].
        -- apply (IH s' r Hok' Hrun).
        -- injection Hrun as <-. exact Hok'.
      * injection Hrun as <-. exact Hok.
  - injection Hrun as <-. exact Hok.
Qed.

(** What the engine does keep of its masking invariant. Every operation of
    the opcode table, started with byte-sized halves, a 16-bit stack pointer
    and a non-negative program counter, ends (whether it returns or raises)
    with every half of AF, BC, DE and HL in [0, 0xFF] and the stack pointer
    unchanged, hence still in [0, 0xFFFF]; the program counter does not
    decrease. *)
Theorem operation_keeps_halves_and_SP (game_data : list byte) (op_code : Z)
    (operation : M unit) (s : cpu) :
  opcode_table game_data op_code = Some operation ->
  regs_ok s ->
  let s' := final (operation s) in
  halves_ok (AF s') /\ halves_ok (BC s') /\ halves_ok (DE s') /\ halves_ok (HL s') /\
  0 <= SP s' <= 0xFFFF /\ SP s' = SP s /\
  0 <= PC s <= PC s'.
Proof.
  intros Hop Hok s'.
  destruct (operation_keeps_regs_ok game_data op_code operation s Hop Hok)
    as ([H1 H2 H3 H4 H5 H6] & HSP & HPC).
  subst s'. destruct Hok as [_ _ _ _ _ Hpc].
  repeat (split; [assumption |]). lia.
Qed.

Lemma operation_keeps_halves_and_SP_witness :
  let s := mkCPU (mkPair 0 0) (mkPair 0 0) (mkPair 0 0) (mkPair 0 0) 0 0xFFFF 0 in
  let s' := final (nop s) in
  opcode_table [] 0x00 = Some nop /\
  regs_ok s /\
  halves_ok (AF s') /\ halves_ok (BC s') /\ halves_ok (DE s') /\ halves_ok (HL s') /\
  0 <= SP s' <= 0xFFFF /\ SP s' = SP s /\
  0 <= PC s <= PC s'.
Proof.
  intros s s'.
  assert (Hop : opcode_table [] 0x00 = Some nop) by reflexivity.
  assert (Hok : regs_ok s)
    by (constructor; cbv; intuition discriminate).
  split; [exact Hop |]. split; [exact Hok |].
  exact (operation_keeps_halves_and_SP [] 0x00 nop s Hop Hok).
Defined.

(** C6, the engine at PC = 0xFFFF. [nop], entry 0x00 of the opcode table,
    started with every half a byte and SP and PC within 16 bits, returns with
    PC = 0x10000, outside [0, 0xFFFF]: [self.__PC += 1] is not followed by a
    mask, although the constructor declares PC a 16-bit register and every
    16-bit pair result is masked with 0xFFFF. *)
Lemma nop_PC_leaves_16_bits :
  let s := mkCPU (mkPair 0 0) (mkPair 0 0) (mkPair 0 0) (mkPair 0 0) 0 0xFFFF 0 in
  opcode_table [] 0x00 = Some nop /\
  regs_masked s /\
  nop s = Ok tt (mkCPU (mkPair 0 0) (mkPair 0 0) (mkPair 0 0) (mkPair 0 0) 0 0x10000 4) /\
  ~ regs_masked (final (nop s)).
Proof.
  cbv zeta. split; [reflexivity |]. split; [cbv; intuition discriminate |].
  split; [reflexivity |].
  intros (_ & _ & _ & _ & _ & _ & Hpc). cbv in Hpc. apply Hpc. reflexivity.
Qed.

(** ** Rotates of the accumulator *)

(** A property of bytes that a boolean test decides holds of every byte once
    the test passes on 0 .. 255. *)
Lemma byte_cases (P : Z -> bool) :
  forallb P (map Z.of_nat (seq 0 256)) = true ->
  forall a, byte_ok a -> P a = true.
Proof.
  intros Hall a [Hlo Hhi].
  rewrite forallb_forall in Hall. apply Hall.
  rewrite <- (Z2Nat.id a Hlo). apply in_map, in_seq. lia.
Qed.

Lemma carry_in_testbit (f : Z) :
  Z.shiftr (Z.land f 0x10) 4 = Z.b2z (Z.testbit f 4).
Proof.
  rewrite Z.shiftr_land. change (Z.shiftr 0x10 4) with 1.
  rewrite land_1, <- Z.bit0_mod, Z.shiftr_spec by lia. reflexivity.
Qed.

Ltac decide_on_bytes a Ha :=
  match goal with
  | |- ?t = true =>
      let t' := eval pattern a in t in
      lazymatch t' with
      | ?P a => apply (byte_cases P); [vm_compute; reflexivity | exact Ha]
      end
  end.

Ltac by_byte_cases a Ha := apply Z.eqb_eq; decide_on_bytes a Ha.

Lemma rlca_run (s : cpu) :
  byte_ok (hi (AF s)) ->
  rlca s =
    Ok tt (mkCPU (mkPair ((2 * hi (AF s)) mod 0x100 + hi (AF s) / 0x80)
                         (0x10 * (hi (AF s) / 0x80)))
                 (BC s) (DE s) (HL s) (SP s) (PC s + 1) (ticks s + 4)).
Proof.
  destruct s as [[a f] bc de hl sp pc tk]. cbn [AF hi]. intros Ha.
  unfold rlca. run_cpu. do 3 f_equal; by_byte_cases a Ha.
Qed.

Lemma rrca_run (s : cpu) :
  byte_ok (hi (AF s)) ->
  rrca s =
    Ok tt (mkCPU (mkPair (hi (AF s) / 2 + 0x80 * (hi (AF s) mod 2))
                         (0x10 * (hi (AF s) mod 2)))
                 (BC s) (DE s) (HL s) (SP s) (PC s + 1) (ticks s + 4)).
Proof.
  destruct s as [[a f] bc de hl sp pc tk]. cbn [AF hi]. intros Ha.
  unfold rrca. run_cpu. do 3 f_equal; by_byte_cases a Ha.
Qed.

Lemma rla_run (s : cpu) :
  byte_ok (hi (AF s)) ->
  rla s =
    Ok tt (mkCPU (mkPair ((2 * hi (AF s)) mod 0x100 + Z.b2z (flag_C s))
                         (0x10 * (hi (AF s) / 0x80)))
                 (BC s) (DE s) (HL s) (SP s) (PC s + 1) (ticks s + 4)).
Proof.
  destruct s as [[a f] bc de hl sp pc tk]. cbv [AF hi lo flag_C]. intros Ha.
  unfold rla. run_cpu. rewrite carry_in_testbit.
  do 3 f_equal; [destruct (Z.testbit f 4); cbn [Z.b2z] |]; by_byte_cases a Ha.
Qed.

Lemma rra_run (s : cpu) :
  byte_ok (hi (AF s)) ->
  rra s =
    Ok tt (mkCPU (mkPair (hi (AF s) / 2 + 0x80 * Z.b2z (flag_C s))
                         (0x10 * (hi (AF s) mod 2)))
                 (BC s) (DE s) (HL s) (SP s) (PC s + 1) (ticks s + 4)).
Proof.
  destruct s as [[a f] bc de hl sp pc tk]. cbv [AF hi lo flag_C]. intros Ha.
  unfold rra. run_cpu. rewrite carry_in_testbit.
  do 3 f_equal; [destruct (Z.testbit f 4); cbn [Z.b2z] |]; by_byte_cases a Ha.
Qed.

Lemma byte_ok_of_test (x : Z) : (0 <=? x) && (x <=? 0xFF) = true -> byte_ok x.
Proof. unfold byte_ok. intros H. apply andb_prop in H. lia. Qed.

Ltac byte_ok_by_cases a Ha := apply byte_ok_of_test; decide_on_bytes a Ha.

(** X1. The four rotates on a byte-sized accumulator, in arithmetic: [rlca] and
    [rla] double A modulo 0x100 and bring in bit 7 of A, respectively the old
    C flag, at bit 0; [rrca] and [rra] halve A and bring in bit 0 of A,
    respectively the old C flag, at bit 7. F becomes 0x10 times the bit that
    left A, so Z, N, H and the unused bits are clear. PC advances by 1, 4
    cycles are charged, and no other register changes. *)
Theorem rotates_spec (s : cpu) :
  byte_ok (hi (AF s)) ->
  let a := hi (AF s) in
  let c := Z.b2z (flag_C s) in
  let after a' f' :=
    Ok tt (mkCPU (mkPair a' f') (BC s) (DE s) (HL s) (SP s) (PC s + 1) (ticks s + 4)) in
  rlca s = after ((2 * a) mod 0x100 + a / 0x80) (0x10 * (a / 0x80)) /\
  rla s = after ((2 * a) mod 0x100 + c) (0x10 * (a / 0x80)) /\
  rrca s = after (a / 2 + 0x80 * (a mod 2)) (0x10 * (a mod 2)) /\
  rra s = after (a / 2 + 0x80 * c) (0x10 * (a mod 2)).
Proof.
  intros Ha. cbv zeta.
  split; [apply rlca_run, Ha |].
  split; [apply rla_run, Ha |].
  split; [apply rrca_run, Ha | apply rra_run, Ha].
Qed.

Lemma rotates_spec_witness :
  let s := mkCPU (mkPair 0x85 0x10) (mkPair 0 0) (mkPair 0 0) (mkPair 0 0) 0 0 0 in
  let after a' f' := Ok tt (mkCPU (mkPair a' f') (BC s) (DE s) (HL s) (SP s) 1 4) in
  byte_ok (hi (AF s)) /\
  rlca s = after 0x0B 0x10 /\
  rla s = after 0x0B 0x10 /\
  rrca s = after 0xC2 0x10 /\
  rra s = after 0xC2 0x10.
Proof.
  intros s after.
  assert (Ha : byte_ok (hi (AF s))) by (cbv; intuition discriminate).
  split; [exact Ha |].
  exact (rotates_spec s Ha).
Defined.

(** X2. A circular rotate one way followed by the circular rotate the other way
    returns with the byte-sized accumulator it started with, whichever comes
    first; F then holds in C the bit that travelled round (bit 7 of A after
    [rlca; rrca], bit 0 after [rrca; rlca]). *)
Theorem rlca_rrca_inverse (s : cpu) :
  byte_ok (hi (AF s)) ->
  (rlca ;; rrca) s =
    Ok tt (mkCPU (mkPair (hi (AF s)) (0x10 * (hi (AF s) / 0x80)))
                 (BC s) (DE s) (HL s) (SP s) (PC s + 2) (ticks s + 8)) /\
  (rrca ;; rlca) s =
    Ok tt (mkCPU (mkPair (hi (AF s)) (0x10 * (hi (AF s) mod 2)))
                 (BC s) (DE s) (HL s) (SP s) (PC s + 2) (ticks s + 8)).
Proof.
  destruct s as [[a f] bc de hl sp pc tk]. cbn [AF BC DE HL SP PC ticks hi].
  intros Ha. unfold bind. split.
  - rewrite rlca_run by exact Ha.
    rewrite rrca_run by (cbn [AF hi]; byte_ok_by_cases a Ha).
    cbn [AF BC DE HL SP PC ticks hi].
    do 2 f_equal; [f_equal; by_byte_cases a Ha | lia | lia].
  - rewrite rrca_run by exact Ha.
    rewrite rlca_run by (cbn [AF hi]; byte_ok_by_cases a Ha).
    cbn [AF BC DE HL SP PC ticks hi].
    do 2 f_equal; [f_equal; by_byte_cases a Ha | lia | lia].
Qed.

Lemma rlca_rrca_inverse_witness :
  let s := mkCPU (mkPair 0x85 0) (mkPair 0 0) (mkPair 0 0) (mkPair 0 0) 0 0 0 in
  byte_ok (hi (AF s)) /\
  (rlca ;; rrca) s =
    Ok tt (mkCPU (mkPair 0x85 0x10) (BC s) (DE s) (HL s) (SP s) 2 8) /\
  (rrca ;; rlca) s =
    Ok tt (mkCPU (mkPair 0x85 0x10) (BC s) (DE s) (HL s) (SP s) 2 8).
Proof.
  intros s.
  assert (Ha : byte_ok (hi (AF s))) by (cbv; intuition discriminate).
  split; [exact Ha |].
  exact (rlca_rrca_inverse s Ha).
Defined.

(** X3. A rotate through carry one way followed by the rotate through carry the
    other way returns with the byte-sized accumulator and the C flag it
    started with; the other bits of F are cleared. *)
Theorem rla_rra_inverse (s : cpu) :
  byte_ok (hi (AF s)) ->
  let s' := mkCPU (mkPair (hi (AF s)) (0x10 * Z.b2z (flag_C s)))
                  (BC s) (DE s) (HL s) (SP s) (PC s + 2) (ticks s + 8) in
  (rla ;; rra) s = Ok tt s' /\
  (rra ;; rla) s = Ok tt s' /\
  flag_C s' = flag_C s.
Proof.
  destruct s as [[a f] bc de hl sp pc tk].
  cbv [AF BC DE HL SP PC ticks hi lo flag_C].
  intros Ha. unfold bind. repeat split.
  - rewrite rla_run by exact Ha.
    rewrite rra_run
      by (cbv [AF hi lo flag_C]; destruct (Z.testbit f 4); cbn [Z.b2z];
          byte_ok_by_cases a Ha).
    cbv [AF BC DE HL SP PC ticks hi lo flag_C].
    destruct (Z.testbit f 4); cbn [Z.b2z];
      (do 2 f_equal; [f_equal; by_byte_cases a Ha | lia | lia]).
  - rewrite rra_run by exact Ha.
    rewrite rla_run
      by (cbv [AF hi lo flag_C]; destruct (Z.testbit f 4); cbn [Z.b2z];
          byte_ok_by_cases a Ha).
    cbv [AF BC DE HL SP PC ticks hi lo flag_C].
    destruct (Z.testbit f 4); cbn [Z.b2z];
      (do 2 f_equal; [f_equal; by_byte_cases a Ha | lia | lia]).
  - destruct (Z.testbit f 4); reflexivity.
Qed.

Lemma rla_rra_inverse_witness :
  let s := mkCPU (mkPair 0x85 0x10) (mkPair 0 0) (mkPair 0 0) (mkPair 0 0) 0 0 0 in
  let s' := mkCPU (mkPair 0x85 0x10) (BC s) (DE s) (HL s) (SP s) 2 8 in
  byte_ok (hi (AF s)) /\
  (rla ;; rra) s = Ok tt s' /\
  (rra ;; rla) s = Ok tt s' /\
  flag_C s' = flag_C s.
Proof.
  intros s s'.
  assert (Ha : byte_ok (hi (AF s))) by (cbv; intuition discriminate).
  split; [exact Ha |].
  exact (rla_rra_inverse s Ha).
Defined.

(** ** More loads *)

Ltac run_seq := repeat (progress (reduce_cpu; rewrite ?tick_run)).

(** X4. For [ld b, d8], [ld c, d8], [ld d, d8], [ld e, d8] and [ld h, d8]: when
    the byte after the opcode is [b], the named half ends holding [b], PC has
    advanced by 2 and 8 cycles were charged; the other half of the pair, the
    flags and all other registers are as before. *)
Theorem ld_8bit_d8_spec (game_data : list byte) (operation : M unit) (r : reg)
    (i : RegisterConstants) (s : cpu) (b : Z) :
  In (operation, (r, i)) (ld_8bit_d8 game_data) ->
  Py.getitem game_data (PC s + 1) = Some b ->
  operation s =
    Ok tt (set_ticks (ticks s + 8)
            (set_PC (PC s + 2) (set_reg r (set_item (get_reg r s) i b) s))).
Proof.
  intros Hin Hb. cbn [In ld_8bit_d8] in Hin.
  destruct s as [af bc de hl sp pc tk]; cbn [PC] in Hb.
  repeat (destruct Hin as [Hin | Hin]); try contradiction;
    inversion Hin; subst;
    cbv [ld_8bit_b_d8 ld_8bit_c_d8 ld_8bit_d_d8 ld_8bit_e_d8 ld_8bit_h_d8 fetch];
    reduce_cpu; rewrite Hb; run_cpu; reflexivity.
Qed.

Lemma ld_8bit_d8_spec_witness :
  let game_data := [x0e; x7f] in
  In (ld_8bit_c_d8 game_data, (rBC, LOW)) (ld_8bit_d8 game_data) /\
  Py.getitem game_data (PC init + 1) = Some 0x7F /\
  ld_8bit_c_d8 game_data init =
    Ok tt (mkCPU (AF init) (mkPair 0 0x7F) (DE init) (HL init) (SP init) 2 8).
Proof.
  cbv zeta.
  assert (Hin : In (ld_8bit_c_d8 [x0e; x7f], (rBC, LOW)) (ld_8bit_d8 [x0e; x7f]))
    by (right; now left).
  split; [exact Hin |]. split; [reflexivity |].
  exact (ld_8bit_d8_spec [x0e; x7f] _ rBC LOW init 0x7F Hin eq_refl).
Defined.

(** X5. [ld (a16), sp] with both address bytes present stores nothing anywhere:
    it returns in the state it started from with PC advanced by 3 and 20
    cycles charged, whatever the two bytes and the stack pointer are. *)
Theorem ld_16bit_a16_sp_frame (game_data : list byte) (s : cpu) (b1 b2 : Z) :
  Py.getitem game_data (PC s + 1) = Some b1 ->
  Py.getitem game_data (PC s + 2) = Some b2 ->
  ld_16bit_a16_sp game_data s = Ok tt (advanced 3 20 s).
Proof.
  intros H1 H2. destruct s as [af bc de hl sp pc tk]; cbn [PC] in H1, H2.
  cbv [ld_16bit_a16_sp fetch advanced]. reduce_cpu. rewrite H1. reduce_cpu.
  rewrite H2. run_cpu. reflexivity.
Qed.

Lemma ld_16bit_a16_sp_frame_witness :
  let game_data := [x08; xc0; x00] in
  Py.getitem game_data (PC init + 1) = Some 0xC0 /\
  Py.getitem game_data (PC init + 2) = Some 0x00 /\
  ld_16bit_a16_sp game_data init = Ok tt (advanced 3 20 init).
Proof.
  cbv zeta. split; [reflexivity |]. split; [reflexivity |].
  exact (ld_16bit_a16_sp_frame [x08; xc0; x00] init 0xC0 0x00 eq_refl eq_refl).
Defined.

(** ** Increments against decrements *)

(** X6. A 16-bit increment or decrement replaces its pair by halves of the old
    16-bit value plus or minus 1 modulo 0x10000, advances PC by 1 and charges
    8 cycles; AF, hence every flag, and the other pairs are as before. *)
Theorem inc_dec_16bit_spec (operation : M unit) (r : reg) (d : Z) (s : cpu) :
  In (operation, (r, d)) inc_dec_16bit ->
  exists p',
    operation s =
      Ok tt (set_ticks (ticks s + 8) (set_PC (PC s + 1) (set_reg r p' s))) /\
    halves_ok p' /\
    value16 p' = (value16 (get_reg r s) + d) mod 0x10000 /\
    AF (final (operation s)) = AF s.
Proof.
  intros Hin. eexists. split; [apply (inc_dec_16bit_run _ r d s Hin) |].
  assert (Hm : 0 <= Z.land (value16 (get_reg r s) + d) 0xFFFF < 0x10000)
    by (rewrite land_FFFF; apply Z.mod_pos_bound; lia).
  destruct (split_value16 _ Hm) as [Hh Hv].
  split; [exact Hh |]. split; [rewrite <- land_FFFF; exact Hv |].
  rewrite (inc_dec_16bit_run _ r d s Hin).
  destruct s as [af bc de hl sp pc tk]. split_family Hin; reflexivity.
Qed.

Lemma inc_dec_16bit_spec_witness :
  let s := mkCPU (mkPair 0 0xF0) (mkPair 0 0) (mkPair 0x00 0x00) (mkPair 0 0) 0 0 0 in
  In (dec_16bit_de, (rDE, -1)) inc_dec_16bit /\
  exists p',
    dec_16bit_de s =
      Ok tt (set_ticks (ticks s + 8) (set_PC (PC s + 1) (set_reg rDE p' s))) /\
    halves_ok p' /\
    value16 p' = (value16 (get_reg rDE s) + -1) mod 0x10000 /\
    AF (final (dec_16bit_de s)) = AF s.
Proof.
  intros s.
  assert (Hin : In (dec_16bit_de, (rDE, -1)) inc_dec_16bit) by (do 4 right; now left).
  split; [exact Hin |].
  exact (inc_dec_16bit_spec dec_16bit_de rDE (-1) s Hin).
Defined.

(** Bumping a well-formed pair by [d] and then by [- d], each time masked to
    16 bits and split into halves, gives the pair back. *)
Lemma bump_back (p : pair) (d : Z) :
  halves_ok p ->
  let q := mkPair (Z.shiftr (Z.land (value16 p + d) 0xFFFF) 8)
                  (Z.land (Z.land (value16 p + d) 0xFFFF) 0xFF) in
  mkPair (Z.shiftr (Z.land (value16 q + - d) 0xFFFF) 8)
         (Z.land (Z.land (value16 q + - d) 0xFFFF) 0xFF) = p.
Proof.
  intros Hp q.
  assert (Hq : 0 <= Z.land (value16 p + d) 0xFFFF < 0x10000)
    by (rewrite land_FFFF; apply Z.mod_pos_bound; lia).
  destruct (split_value16 _ Hq) as [_ Hqv]. fold q in Hqv.
  assert (Hr : 0 <= Z.land (value16 q + - d) 0xFFFF < 0x10000)
    by (rewrite land_FFFF; apply Z.mod_pos_bound; lia).
  destruct (split_value16 _ Hr) as [Hrh Hrv].
  apply value16_inj; [exact Hrh | exact Hp |].
  rewrite Hrv, Hqv, !land_FFFF, Z.add_opp_r, Zminus_mod_idemp_l.
  replace (value16 p + d - d) with (value16 p) by lia.
  apply Z.mod_small, value16_range, Hp.
Qed.

(** X7. For BC and for DE, started with byte-sized halves: the 16-bit increment
    followed by the decrement, and the decrement followed by the increment,
    return in the state they started from, with PC advanced by 2 and 16
    cycles charged; this includes stepping through 0xFFFF and 0x0000. *)
Theorem inc_dec_16bit_inverse (inc dec : M unit) (r : reg) (s : cpu) :
  In (inc, dec, r) inc_dec_16bit_pairs ->
  halves_ok (get_reg r s) ->
  (inc ;; dec) s = Ok tt (advanced 2 16 s) /\
  (dec ;; inc) s = Ok tt (advanced 2 16 s).
Proof.
  intros Hin Hp.
  pose proof (bump_back _ 1 Hp) as Hup. pose proof (bump_back _ (-1) Hp) as Hdown.
  cbv zeta in Hup, Hdown.
  change (- (1)) with (-1) in Hup. change (- -1) with 1 in Hdown.
  assert (Hi : In (inc, (r, 1)) inc_dec_16bit /\ In (dec, (r, -1)) inc_dec_16bit).
  { cbn [In inc_dec_16bit_pairs] in Hin.
    repeat (destruct Hin as [Hin | Hin]); try contradiction;
      inversion Hin; subst; cbn; auto 10. }
  destruct Hi as [Hinc Hdec]. unfold bind.
  rewrite (inc_dec_16bit_run _ r 1 s Hinc), (inc_dec_16bit_run _ r (-1) s Hdec).
  rewrite (inc_dec_16bit_run _ r (-1) _ Hdec), (inc_dec_16bit_run _ r 1 _ Hinc).
  cbn [In inc_dec_16bit_pairs] in Hin.
  destruct s as [af bc de hl sp pc tk].
  repeat (destruct Hin as [Hin | Hin]); try contradiction;
    inversion Hin; subst;
    cbv [get_reg set_reg set_PC set_ticks advanced AF BC DE HL SP PC ticks] in *;
    rewrite Hup, Hdown; split; do 2 f_equal; lia.
Qed.

Lemma inc_dec_16bit_inverse_witness :
  let s := mkCPU (mkPair 0 0) (mkPair 0xFF 0xFF) (mkPair 0 0) (mkPair 0 0) 0 0 0 in
  In (inc_16bit_bc, dec_16bit_bc, rBC) inc_dec_16bit_pairs /\
  halves_ok (get_reg rBC s) /\
  (inc_16bit_bc ;; dec_16bit_bc) s = Ok tt (advanced 2 16 s) /\
  (dec_16bit_bc ;; inc_16bit_bc) s = Ok tt (advanced 2 16 s).
Proof.
  intros s.
  assert (Hin : In (inc_16bit_bc, dec_16bit_bc, rBC) inc_dec_16bit_pairs) by (now left).
  assert (Hp : halves_ok (get_reg rBC s)) by (cbv; intuition discriminate).
  split; [exact Hin |]. split; [exact Hp |].
  exact (inc_dec_16bit_inverse inc_16bit_bc dec_16bit_bc rBC s Hin Hp).
Defined.

(** X8. For B, C, D, E and H, started with a byte in the half: the 8-bit
    increment followed by the decrement, and the decrement followed by the
    increment, leave the half, its pair and every register but F as they
    were, advance PC by 2 and charge 8 cycles, also through 0xFF and 0x00; F
    ends as the second operation writes it, 0x40 after a decrement and 0x00
    after an increment. *)
Theorem inc_dec_8bit_inverse (inc dec : M unit) (r : reg) (i : RegisterConstants)
    (s : cpu) :
  In (inc, dec, (r, i)) inc_dec_8bit_pairs ->
  byte_ok (item (get_reg r s) i) ->
  (inc ;; dec) s = Ok tt (set_reg rAF (mkPair (hi (AF s)) 0x40) (advanced 2 8 s)) /\
  (dec ;; inc) s = Ok tt (set_reg rAF (mkPair (hi (AF s)) 0x00) (advanced 2 8 s)).
Proof.
  intros Hin Hb. cbn [In inc_dec_8bit_pairs] in Hin.
  destruct s as [[a f] [b c] [d e] [h l] sp pc tk].
  repeat (destruct Hin as [Hin | Hin]); try contradiction;
    inversion Hin; subst; cbv [get_reg item BC DE HL hi lo] in Hb;
    match type of Hb with
    | byte_ok ?x =>
        assert (Eup : Z.land (Z.land (x + 1) 0xFF - 1) 0xFF = x)
          by (by_byte_cases x Hb);
        assert (Edown : Z.land (Z.land (x - 1) 0xFF + 1) 0xFF = x)
          by (by_byte_cases x Hb)
    end;
    (split;
     cbv [inc_8bit_b inc_8bit_c inc_8bit_d inc_8bit_e inc_8bit_h
          dec_8bit_b dec_8bit_c dec_8bit_d dec_8bit_e dec_8bit_h advanced];
     run_seq; rewrite ?Eup, ?Edown;
     replace (pc + 1 + 1) with (pc + 2) by lia;
     replace (tk + 4 + 4) with (tk + 8) by lia; reflexivity).
Qed.

Lemma inc_dec_8bit_inverse_witness :
  let s := mkCPU (mkPair 0 0) (mkPair 0xFF 0x00) (mkPair 0 0) (mkPair 0 0) 0 0 0 in
  In (inc_8bit_b, dec_8bit_b, (rBC, HIGH)) inc_dec_8bit_pairs /\
  byte_ok (item (get_reg rBC s) HIGH) /\
  (inc_8bit_b ;; dec_8bit_b) s =
    Ok tt (set_reg rAF (mkPair (hi (AF s)) 0x40) (advanced 2 8 s)) /\
  (dec_8bit_b ;; inc_8bit_b) s =
    Ok tt (set_reg rAF (mkPair (hi (AF s)) 0x00) (advanced 2 8 s)).
Proof.
  intros s.
  assert (Hin : In (inc_8bit_b, dec_8bit_b, (rBC, HIGH)) inc_dec_8bit_pairs)
    by (now left).
  assert (Hb : byte_ok (item (get_reg rBC s) HIGH)) by (cbv; intuition discriminate).
  split; [exact Hin |]. split; [exact Hb |].
  exact (inc_dec_8bit_inverse inc_8bit_b dec_8bit_b rBC HIGH s Hin Hb).
Defined.

(** ** Dispatch, timing and runs of the loop *)

Lemma opcode_table_Some (game_data : list byte) (op_code : Z) (operation : M unit) :
  opcode_table game_data op_code = Some operation -> 0x00 <= op_code <= 0x26.
Proof.
  intros Hop. unfold opcode_table in Hop.
  repeat match type of Hop with
         | context [match ?p with _ => _ end] => destruct p
         end; try discriminate Hop; lia.
Qed.

(** X9. The opcode table has an entry for exactly the opcodes 0x00 .. 0x26, and
    the run loop meeting any larger byte at PC stops with a [KeyError] in the
    state it was in: of the 256 byte values, 0x27 .. 0xFF all end the run. *)
Theorem unknown_opcode_raises_KeyError (game_data : list byte) :
  (forall op_code,
     (exists operation, opcode_table game_data op_code = Some operation) <->
     0x00 <= op_code <= 0x26) /\
  (forall s fuel op_code,
     Py.getitem game_data (PC s) = Some op_code ->
     0x26 < op_code ->
     main_loop game_data (S fuel) s = Some (Raise KeyError s)).
Proof.
  split.
  - intros op_code. split.
    + intros [operation Hop]. exact (opcode_table_Some _ _ _ Hop).
    + intros Hr. destruct op_code as [| p | p]; [eexists; reflexivity | | lia].
      do 6 (try destruct p as [p | p |]); try lia; eexists; reflexivity.
  - intros s fuel op_code Hfetch Hop. rewrite main_loop_S, Hfetch.
    destruct (Z.eqb_spec op_code 0x10) as [-> | _]; [lia |].
    unfold dispatch.
    destruct (opcode_table game_data op_code) as [operation |] eqn:E;
      [apply opcode_table_Some in E; lia | reflexivity].
Qed.

Lemma unknown_opcode_raises_KeyError_witness :
  Py.getitem [xff] (PC init) = Some 0xFF /\
  0x26 < 0xFF /\
  main_loop [xff] 1 init = Some (Raise KeyError init).
Proof.
  split; [reflexivity |]. split; [reflexivity |].
  exact (proj2 (unknown_opcode_raises_KeyError [xff]) init 0%nat 0xFF eq_refl eq_refl).
Defined.

Ltac unfold_operations :=
  cbv [nop stop rlca rla rrca rra jr_8bit_r8 jr_8bit_nz_r8
       add_16bit_hl_bc add_16bit_hl_de
       ld_8bit_a_bc ld_8bit_a_de ld_8bit_bc_a ld_8bit_de_a ld_8bit_hli_a
       ld_8bit_b_d8 ld_8bit_c_d8 ld_8bit_d_d8 ld_8bit_e_d8 ld_8bit_h_d8
       ld_16bit_bc ld_16bit_de ld_16bit_hl ld_16bit_a16_sp
       inc_8bit_b inc_8bit_c inc_8bit_d inc_8bit_e inc_8bit_h
       inc_16bit_bc inc_16bit_de inc_16bit_hl
       dec_8bit_b dec_8bit_c dec_8bit_d dec_8bit_e dec_8bit_h
       dec_16bit_bc dec_16bit_de fetch].

(** X10. Every operation the run loop can dispatch (every table entry but 0x10,
    which the loop handles itself) charges 4, 8, 12 or 20 cycles when it
    returns, and when it raises, which only an immediate fetch past the end
    makes it do, it has charged nothing and left PC where it was. *)
Theorem operation_cycle_cost (game_data : list byte) (op_code : Z)
    (operation : M unit) (s : cpu) :
  opcode_table game_data op_code = Some operation ->
  op_code <> 0x10 ->
  match operation s with
  | Ok _ s' => In (ticks s' - ticks s) [4; 8; 12; 20]
  | Raise e s' => e = IndexError /\ ticks s' = ticks s /\ PC s' = PC s
  end.
Proof.
  intros Hop Hstop. unfold opcode_table in Hop.
  destruct s as [[a f] [b c] [d e] [h l] sp pc tk].
  repeat match type of Hop with
         | context [match ?p with _ => _ end] => destruct p
         end; try discriminate Hop; try (exfalso; apply Hstop; reflexivity).
  all: injection Hop as <-.
  all: unfold_operations; run_branches.
  all: cbn [In]; try lia; auto.
Qed.

Lemma operation_cycle_cost_witness :
  opcode_table [x08] 0x08 = Some (ld_16bit_a16_sp [x08]) /\
  0x08 <> 0x10 /\
  match ld_16bit_a16_sp [x08] init with
  | Ok _ s' => In (ticks s' - ticks init) [4; 8; 12; 20]
  | Raise e s' => e = IndexError /\ ticks s' = ticks init /\ PC s' = PC init
  end.
Proof.
  assert (Hne : 0x08 <> 0x10) by discriminate.
  split; [reflexivity |]. split; [exact Hne |].
  exact (operation_cycle_cost [x08] 0x08 _ init eq_refl Hne).
Defined.

(** X11. [tick] never raises and touches nothing but the cycle counter, which it
    advances by exactly the number asked for; two calls in a row charge the
    sum. *)
Theorem tick_charges (m n : nat) (s : cpu) :
  tick n s =
    Ok tt (mkCPU (AF s) (BC s) (DE s) (HL s) (SP s) (PC s) (ticks s + Z.of_nat n)) /\
  (tick m ;; tick n) s = tick (m + n) s.
Proof.
  split.
  - rewrite tick_run. reflexivity.
  - unfold bind. rewrite !tick_run. destruct s as [af bc de hl sp pc tk].
    cbv [set_ticks AF BC DE HL SP PC ticks]. do 2 f_equal. lia.
Qed.

(** X12. A run of [n] [nop]s followed by [stop]: the loop leaves through [break]
    after n + 1 iterations with PC advanced by n + 2, 4 n + 4 cycles charged
    and every other register as before. *)
Theorem main_loop_nop_sled (game_data : list byte) (n : nat) :
  forall s,
    (forall k, 0 <= k < Z.of_nat n -> Py.getitem game_data (PC s + k) = Some 0x00) ->
    Py.getitem game_data (PC s + Z.of_nat n) = Some 0x10 ->
    main_loop game_data (S n) s =
      Some (Ok tt (advanced (Z.of_nat n + 2) (4 * Z.of_nat n + 4) s)).
Proof.
  induction n as [| n IH]; intros s Hnops Hstop.
  - cbn [Z.of_nat] in Hstop. rewrite Z.add_0_r in Hstop.
    rewrite main_loop_S, Hstop. reflexivity.
  - rewrite main_loop_S.
    rewrite <- (Z.add_0_r (PC s)), (Hnops 0) by lia.
    cbn [Z.eqb]. unfold dispatch. cbn [opcode_table]. rewrite nop_run.
    rewrite IH.
    + unfold advanced. cbn [AF BC DE HL SP PC ticks]. do 3 f_equal; lia.
    + intros k Hk. cbn [PC]. rewrite <- Z.add_assoc. apply Hnops. lia.
    + cbn [PC]. replace (PC s + 1 + Z.of_nat n) with (PC s + Z.of_nat (S n)) by lia.
      exact Hstop.
Qed.

Lemma main_loop_nop_sled_witness :
  let game_data := [x00; x00; x00; x10] in
  (forall k, 0 <= k < Z.of_nat 3 -> Py.getitem game_data (PC init + k) = Some 0x00) /\
  Py.getitem game_data (PC init + Z.of_nat 3) = Some 0x10 /\
  main_loop game_data 4 init = Some (Ok tt (advanced 5 16 init)).
Proof.
  cbv zeta.
  assert (Hnops : forall k, 0 <= k < Z.of_nat 3 ->
                            Py.getitem [x00; x00; x00; x10] (PC init + k) = Some 0x00).
  { intros k Hk.
    assert (Hc : k = 0 \/ k = 1 \/ k = 2) by lia.
    destruct Hc as [-> | [-> | ->]]; reflexivity. }
  split; [exact Hnops |]. split; [reflexivity |].
  exact (main_loop_nop_sled [x00; x00; x00; x10] 3 init Hnops eq_refl).
Defined.

(** X13. A relative jump never goes back: when [jr r8] or [jr nz, r8] returns, PC
    lies between its old value and its old value plus 0xFF, the displacement
    byte being added as an unsigned number. *)
Theorem jr_never_backwards (game_data : list byte) (s s' : cpu) :
  jr_8bit_r8 game_data s = Ok tt s' \/ jr_8bit_nz_r8 game_data s = Ok tt s' ->
  PC s <= PC s' <= PC s + 0xFF.
Proof.
  assert (Hjr : jr_8bit_r8 game_data s = Ok tt s' -> PC s <= PC s' <= PC s + 0xFF).
  { destruct (Py.getitem game_data (PC s + 1)) as [d |] eqn:Ed.
    - rewrite (jr_8bit_r8_run _ _ _ Ed). intros [= <-].
      apply getitem_byte in Ed. unfold byte_ok in Ed.
      destruct s; cbn [set_ticks set_PC PC]. lia.
    - destruct s as [af bc de hl sp pc tk]. cbn [PC] in Ed.
      cbv [jr_8bit_r8 fetch]. reduce_cpu. rewrite Ed. discriminate. }
  intros [H | H]; [exact (Hjr H) |].
  destruct (flag_Z s) eqn:HZ.
  - rewrite (jr_8bit_nz_r8_not_taken _ _ HZ) in H. injection H as <-.
    destruct s; cbn [set_ticks PC]. lia.
  - rewrite (jr_8bit_nz_r8_taken _ _ HZ) in H. exact (Hjr H).
Qed.

Lemma jr_never_backwards_witness :
  let s' := mkCPU (AF init) (BC init) (DE init) (HL init) (SP init) 0xFF 12 in
  (jr_8bit_r8 [x18; xff] init = Ok tt s' \/ jr_8bit_nz_r8 [x18; xff] init = Ok tt s') /\
  PC init <= PC s' <= PC init + 0xFF.
Proof.
  intros s'.
  assert (H : jr_8bit_r8 [x18; xff] init = Ok tt s' \/
              jr_8bit_nz_r8 [x18; xff] init = Ok tt s') by (left; reflexivity).
  split; [exact H |].
  exact (jr_never_backwards [x18; xff] init s' H).
Defined.

(** X14. [jr r8] with displacement byte 0x00 jumps to itself: the run loop that
    meets it charges 12 cycles per iteration and never leaves. *)
Theorem main_loop_jr_zero_spins (game_data : list byte) (fuel : nat) :
  forall s,
    Py.getitem game_data (PC s) = Some 0x18 ->
    Py.getitem game_data (PC s + 1) = Some 0x00 ->
    main_loop game_data fuel s = None.
Proof.
  induction fuel as [| fuel IH]; intros s Hop Hd; [reflexivity |].
  rewrite main_loop_S, Hop. cbn [Z.eqb Pos.eqb]. unfold dispatch.
  cbn [opcode_table]. rewrite (jr_8bit_r8_run _ _ _ Hd).
  apply IH; destruct s; cbn [set_ticks set_PC PC] in *;
    rewrite Z.add_0_r; assumption.
Qed.

Lemma main_loop_jr_zero_spins_witness :
  Py.getitem [x18; x00; x10] (PC init) = Some 0x18 /\
  Py.getitem [x18; x00; x10] (PC init + 1) = Some 0x00 /\
  main_loop [x18; x00; x10] 1000 init = None.
Proof.
  split; [reflexivity |]. split; [reflexivity |].
  exact (main_loop_jr_zero_spins [x18; x00; x10] 1000 init eq_refl eq_refl).
Defined.

(** ** The Z flag in runs of the engine *)

Lemma carry_flag_plain (c : Z) : 0 <= c <= 1 -> Z.land (Z.shiftl c 4) 0x8F = 0.
Proof.
  intros Hc. assert (H : c = 0 \/ c = 1) by lia. destruct H as [-> | ->]; reflexivity.
Qed.

Lemma add_16bit_flags_plain (h l h' l' : Z) :
  byte_ok h -> byte_ok l -> byte_ok h' -> byte_ok l' ->
  Z.land
    (Z.lor
       (Z.lor 0
          (Z.shiftl
             (Z.shiftr
                (Z.land (Z.shiftl h 8 + l) 0x0FFF + Z.land (Z.shiftl h' 8 + l') 0x0FFF)
                12) 5))
       (Z.shiftl (Z.shiftr (Z.shiftl h 8 + l + (Z.shiftl h' 8 + l')) 16) 4))
    0x8F = 0.
Proof.
  intros Hh Hl Hh' Hl'.
  pose proof (value16_range (mkPair h l) (conj Hh Hl)) as Ra.
  pose proof (value16_range (mkPair h' l') (conj Hh' Hl')) as Rb.
  unfold value16 in Ra, Rb. cbn [hi lo] in Ra, Rb.
  rewrite !land_0FFF.
  pose proof (Z.mod_pos_bound (Z.shiftl h 8 + l) 0x1000 ltac:(lia)).
  pose proof (Z.mod_pos_bound (Z.shiftl h' 8 + l') 0x1000 ltac:(lia)).
  destruct (shiftr_carry ((Z.shiftl h 8 + l) mod 0x1000 + (Z.shiftl h' 8 + l') mod 0x1000) 12)
    as [[_ E12] | [_ E12]]; [lia | change (2 ^ 12) with 0x1000; lia | |];
    (destruct (shiftr_carry (Z.shiftl h 8 + l + (Z.shiftl h' 8 + l')) 16)
      as [[_ E16] | [_ E16]]; [lia | change (2 ^ 16) with 0x10000; lia | |]);
    rewrite E12, E16; reflexivity.
Qed.

Lemma operation_keeps_Z_clear (game_data : list byte) (op_code : Z)
    (operation : M unit) (s : cpu) :
  opcode_table game_data op_code = Some operation ->
  regs_ok s ->
  Z_and_unused_clear s ->
  Z_and_unused_clear (final (operation s)).
Proof.
  intros Hop Hok HF. unfold opcode_table in Hop.
  destruct s as [[a f] [b c] [d e] [h l] sp pc tk].
  destruct Hok as [[Ha Hf] [Hb Hc] [Hd He] [Hh Hl] Hsp Hpc].
  unfold Z_and_unused_clear in *.
  cbn [AF BC DE HL SP PC hi lo] in *.
  repeat match type of Hop with
         | context [match ?p with _ => _ end] => destruct p
         end; try discriminate Hop.
  all: injection Hop as <-.
  all: unfold_operations; run_branches.
  all: first [ assumption
             | reflexivity
             | apply carry_flag_plain; auto with cpu_ok
             | apply add_16bit_flags_plain; assumption ].
Qed.

Lemma plain_flags_Z_clear (s : cpu) : Z_and_unused_clear s -> flag_Z s = false.
Proof.
  unfold Z_and_unused_clear, flag_Z. intros HF.
  assert (Hb : Z.testbit (Z.land (lo (AF s)) 0x8F) 7 = false)
    by (rewrite HF; reflexivity).
  rewrite Z.land_spec in Hb. change (Z.testbit 0x8F 7) with true in Hb.
  now rewrite andb_true_r in Hb.
Qed.

(** X15. No run sets the Z flag. Started with well-formed registers and an F that
    has Z and the four unused bits clear, as after construction, the run
    loop can only end, by [break] or by an exception, in a state whose F
    again has Z and the unused bits clear; so along such a run [jr nz, r8]
    always jumps. *)
Theorem main_loop_never_sets_Z (game_data : list byte) (fuel : nat) :
  forall s r,
    regs_ok s ->
    Z_and_unused_clear s ->
    main_loop game_data fuel s = Some r ->
    Z_and_unused_clear (final r) /\ flag_Z (final r) = false.
Proof.
  assert (Hinv : forall s r, regs_ok s -> Z_and_unused_clear s ->
                 main_loop game_data fuel s = Some r -> Z_and_unused_clear (final r)).
  { induction fuel as [| fuel IH]; intros s r Hok HF Hrun; [discriminate Hrun |].
    rewrite main_loop_S in Hrun.
    destruct (Py.getitem game_data (PC s)) as [op_code |].
    - destruct (op_code =? 0x10).
      + injection Hrun as <-. exact HF.
      + unfold dispatch in Hrun.
        destruct (opcode_table game_data op_code) as [operation |] eqn:Etab.
        * pose proof (operation_keeps_regs_ok _ _ _ s Etab Hok) as [Hok' _].
          pose proof (operation_keeps_Z_clear _ _ _ s Etab Hok HF) as HF'.
          destruct (operation s) as [[] s' | e s'].
          -- exact (IH s' r Hok' HF' Hrun).
          -- injection Hrun as <-. exact HF'.
        * injection Hrun as <-. exact HF.
    - injection Hrun as <-. exact HF. }
  intros s r Hok HF Hrun. pose proof (Hinv s r Hok HF Hrun) as HF'.
  split; [exact HF' | exact (plain_flags_Z_clear _ HF')].
Qed.

Lemma main_loop_never_sets_Z_witness :
  let game_data := [x06; xff; x04; x10; x00] in
  let r := Ok tt (mkCPU (mkPair 0 0) (mkPair 0 0) (mkPair 0 0) (mkPair 0 0) 0 5 16) in
  regs_ok init /\
  Z_and_unused_clear init /\
  main_loop game_data 3 init = Some r /\
  Z_and_unused_clear (final r) /\ flag_Z (final r) = false.
Proof.
  intros game_data r.
  assert (Hok : regs_ok init) by (constructor; cbv; intuition discriminate).
  assert (HF : Z_and_unused_clear init) by reflexivity.
  assert (Hrun : main_loop game_data 3 init = Some r) by reflexivity.
  split; [exact Hok |]. split; [exact HF |]. split; [exact Hrun |].
  exact (main_loop_never_sets_Z game_data 3 init r Hok HF Hrun).
Defined.

(** ** The cartridge parser *)

Lemma slice_nonneg (data : list byte) (a b : Z) :
  0 <= a -> a <= b ->
  Py.slice data a b = firstn (Z.to_nat (b - a)) (skipn (Z.to_nat a) data).
Proof.
  intros Ha Hab. unfold Py.slice, Py.adjust.
  destruct (Z.ltb_spec a 0) as [? | _]; [lia |].
  destruct (Z.ltb_spec b 0) as [? | _]; [lia |].
  set (n := Z.of_nat (length data)).
  destruct (Z_lt_le_dec a n) as [Han | Han].
  - rewrite (Z.min_l a n) by lia.
    destruct (Z_le_gt_dec b n) as [Hbn | Hbn].
    + now rewrite (Z.min_l b n) by lia.
    + rewrite (Z.min_r b n) by lia.
      rewrite !firstn_all2; [reflexivity | |]; rewrite length_skipn; unfold n in *; lia.
  - rewrite !(skipn_all2 (n := Z.to_nat _)) by (unfold n in *; lia).
    now rewrite !firstn_nil.
Qed.

Lemma slice_from_nonneg (data : list byte) (a : Z) :
  0 <= a -> Py.slice_from data a = skipn (Z.to_nat a) data.
Proof.
  intros Ha. unfold Py.slice_from, Py.adjust.
  destruct (Z.ltb_spec a 0) as [? | _]; [lia |].
  destruct (Z_lt_le_dec a (Z.of_nat (length data))) as [Han | Han].
  - now rewrite Z.min_l by lia.
  - now rewrite !skipn_all2 by lia.
Qed.

Lemma field_firstn (data : list byte) (addr size : Z) :
  0 <= addr -> 0 <= size ->
  ROMParser.field data addr size =
    firstn (Z.to_nat size) (skipn (Z.to_nat addr) data).
Proof.
  intros Ha Hs. unfold ROMParser.field. rewrite slice_nonneg by lia.
  do 2 f_equal. lia.
Qed.

Lemma game_data_skipn (data : list byte) :
  ROMParser.game_data (ROMParser.parse_file data) = skipn (Z.to_nat 0x151) data.
Proof.
  cbn [ROMParser.game_data ROMParser.parse_file].
  now rewrite slice_from_nonneg by (cbv; discriminate).
Qed.

(** X16. The CPU's address [i] is the file's offset [i + 0x151]: indexing the
    [game_data] of a parsed file at a non-negative [i] gives what indexing the
    file at [i + 0x151] gives, a byte or an [IndexError]. The byte at offset
    0x150, right after the global checksum, is not part of [game_data]. *)
Theorem game_data_getitem (data : list byte) (i : Z) :
  0 <= i ->
  Py.getitem (ROMParser.game_data (ROMParser.parse_file data)) i =
  Py.getitem data (i + 0x151).
Proof.
  intros Hi. rewrite game_data_skipn. unfold Py.getitem.
  rewrite length_skipn, nth_error_skipn.
  destruct (Z.ltb_spec i 0) as [? | _]; [lia |].
  destruct (Z.ltb_spec (i + 0x151) 0) as [? | _]; [lia |].
  replace (Z.to_nat 0x151 + Z.to_nat i)%nat with (Z.to_nat (i + 0x151)) by lia.
  destruct (Z.leb_spec 0 i) as [_ | ?]; [| lia].
  destruct (Z.leb_spec 0 (i + 0x151)) as [_ | ?]; [| lia].
  destruct (Z.ltb_spec i (Z.of_nat (length data - Z.to_nat 0x151)));
    destruct (Z.ltb_spec (i + 0x151) (Z.of_nat (length data)));
    try reflexivity; lia.
Qed.

Lemma game_data_getitem_witness :
  let data := repeat x00 0x151 ++ [x3e; x10] in
  0 <= 1 /\
  Py.getitem (ROMParser.game_data (ROMParser.parse_file data)) 1 = Some 0x10 /\
  Py.getitem (ROMParser.game_data (ROMParser.parse_file data)) 1 =
  Py.getitem data (1 + 0x151).
Proof.
  intros data.
  assert (H : 0 <= 1) by discriminate.
  split; [exact H |]. split; [vm_compute; reflexivity |].
  exact (game_data_getitem data 1 H).
Defined.

Lemma length_field (data : list byte) (addr size : Z) :
  0 <= addr -> 0 <= size ->
  Z.of_nat (length (ROMParser.field data addr size)) =
    Z.max 0 (Z.min size (Z.of_nat (length data) - addr)).
Proof.
  intros Ha Hs. rewrite field_firstn, length_firstn, length_skipn by assumption. lia.
Qed.

(** X17. [parse_file] rejects no file. Each header attribute holds as many bytes
    of its [HeaderSize] as the file has from its address on, so never more
    than its size, nothing for a file that ends before its address, and
    exactly its size for every attribute once the file has 0x150 bytes. *)
Theorem header_field_lengths (data : list byte) (f : list byte) (addr size : Z) :
  In (f, (addr, size)) (header_fields (ROMParser.parse_file data)) ->
  let n := Z.of_nat (length data) in
  Z.of_nat (length f) = Z.max 0 (Z.min size (n - addr)) /\
  Z.of_nat (length f) <= size /\
  (n <= addr -> f = []) /\
  (0x150 <= n -> Z.of_nat (length f) = size).
Proof.
  intros Hin n.
  assert (Hf : f = ROMParser.field data addr size /\
               0 <= addr /\ 0 < size /\ addr + size <= 0x150).
  { cbn [In header_fields] in Hin.
    repeat (destruct Hin as [Hin | Hin]); try contradiction;
      inversion Hin; subst; (split; [reflexivity | cbv; intuition discriminate]). }
  destruct Hf as (-> & Ha & Hs & Hend).
  pose proof (length_field data addr size Ha ltac:(lia)) as Hlen. fold n in Hlen.
  split; [exact Hlen |]. split; [lia |]. split; [| lia].
  intros Hn. apply length_zero_iff_nil. lia.
Qed.

Lemma header_field_lengths_witness :
  let data := repeat x00 0x140 in
  let p := ROMParser.parse_file data in
  In (ROMParser.title p, (0x134, 16)) (header_fields p) /\
  Z.of_nat (length (ROMParser.title p)) = Z.max 0 (Z.min 16 (0x140 - 0x134)) /\
  Z.of_nat (length (ROMParser.title p)) <= 16 /\
  (0x140 <= 0x134 -> ROMParser.title p = []) /\
  (0x150 <= 0x140 -> Z.of_nat (length (ROMParser.title p)) = 16).
Proof.
  intros data p.
  assert (Hin : In (ROMParser.title p, (0x134, 16)) (header_fields p))
    by (do 2 right; now left).
  split; [exact Hin |].
  exact (header_field_lengths data (ROMParser.title p) 0x134 16 Hin).
Defined.

Lemma firstn_split (l : list byte) (a b : nat) :
  firstn (a + b) l = firstn a l ++ firstn b (skipn a l).
Proof.
  revert l; induction a as [| a IH]; intros [| x l]; cbn;
    rewrite ?firstn_nil; try reflexivity.
  now rewrite IH.
Qed.

(** X18. The title attribute overlaps two others: for every file, the last five
    of the sixteen title bytes (what is left of the title after its first
    eleven bytes) are the manufacturer code followed by the CGB flag. *)
Theorem title_holds_manufacturer_and_cgb (data : list byte) :
  let p := ROMParser.parse_file data in
  skipn 11 (ROMParser.title p) = ROMParser.manufacture_code p ++ ROMParser.cgb p.
Proof.
  cbn [ROMParser.title ROMParser.manufacture_code ROMParser.cgb ROMParser.parse_file].
  rewrite !field_firstn by (cbv; discriminate).
  rewrite skipn_firstn_comm, skipn_skipn.
  change (Z.to_nat HeaderSize.TITLE - 11)%nat with (4 + 1)%nat.
  change (Z.to_nat HeaderSize.MANUF_CODE) with 4%nat.
  change (Z.to_nat HeaderSize.CGB_FLAG) with 1%nat.
  rewrite firstn_split, skipn_skipn.
  do 2 f_equal; f_equal; reflexivity.
Qed.

Lemma segment_then_rest (data : list byte) (a k b : Z) :
  0 <= a -> 0 <= k -> b = a + k ->
  firstn (Z.to_nat k) (skipn (Z.to_nat a) data) ++ skipn (Z.to_nat b) data =
  skipn (Z.to_nat a) data.
Proof.
  intros Ha Hk ->. rewrite Z2Nat.inj_add, Nat.add_comm, <- skipn_skipn by assumption.
  apply firstn_skipn.
Qed.

(** X19. The attributes tile the file with one gap: for every file, the bytes
    before the entry point, then entry, logo, title, new licensee code, SGB
    flag, cartridge type, ROM size, RAM size, destination, old licensee code,
    mask ROM version, header checksum and global checksum, then the single
    byte at offset 0x150, then [game_data], concatenated in this order, are
    the file again. *)
Theorem parse_file_reassembles (data : list byte) :
  let p := ROMParser.parse_file data in
  Py.slice data 0 0x100 ++
  ROMParser.entry p ++ ROMParser.logo p ++ ROMParser.title p ++
  ROMParser.new_license_code p ++ ROMParser.sgb p ++ ROMParser.cart_type p ++
  ROMParser.rom_size p ++ ROMParser.ram_size p ++ ROMParser.destination p ++
  ROMParser.old_license_code p ++ ROMParser.mask_rom_version p ++
  ROMParser.header_checksum p ++ ROMParser.global_checksum p ++
  Py.slice data 0x150 0x151 ++ ROMParser.game_data p = data.
Proof.
  cbv zeta. rewrite game_data_skipn.
  cbn [ROMParser.entry ROMParser.logo ROMParser.title ROMParser.new_license_code
       ROMParser.sgb ROMParser.cart_type ROMParser.rom_size ROMParser.ram_size
       ROMParser.destination ROMParser.old_license_code ROMParser.mask_rom_version
       ROMParser.header_checksum ROMParser.global_checksum ROMParser.parse_file].
  rewrite !field_firstn by (cbv; discriminate).
  rewrite !slice_nonneg by (cbv; discriminate).
  change (0x151 - 0x150) with 1. change (0x100 - 0) with 0x100.
  rewrite (segment_then_rest data 0x150 1 0x151) by (cbv; congruence).
  rewrite (segment_then_rest data HeaderMemAddresses.GLOBAL_CHKSM _ 0x150)
    by (cbv; congruence).
  rewrite (segment_then_rest data HeaderMemAddresses.HEADER_CHKSM _
             HeaderMemAddresses.GLOBAL_CHKSM) by (cbv; congruence).
  rewrite (segment_then_rest data HeaderMemAddresses.MASK_ROM_VER_NUM _
             HeaderMemAddresses.HEADER_CHKSM) by (cbv; congruence).
  rewrite (segment_then_rest data HeaderMemAddresses.OLD_LICS_CODE _
             HeaderMemAddresses.MASK_ROM_VER_NUM) by (cbv; congruence).
  rewrite (segment_then_rest data HeaderMemAddresses.DEST_CODE _
             HeaderMemAddresses.OLD_LICS_CODE) by (cbv; congruence).
  rewrite (segment_then_rest data HeaderMemAddresses.RAM_SIZE _
             HeaderMemAddresses.DEST_CODE) by (cbv; congruence).
  rewrite (segment_then_rest data HeaderMemAddresses.ROM_SIZE _
             HeaderMemAddresses.RAM_SIZE) by (cbv; congruence).
  rewrite (segment_then_rest data HeaderMemAddresses.CART_TYPE _
             HeaderMemAddresses.ROM_SIZE) by (cbv; congruence).
  rewrite (segment_then_rest data HeaderMemAddresses.SGB_FLAG _
             HeaderMemAddresses.CART_TYPE) by (cbv; congruence).
  rewrite (segment_then_rest data HeaderMemAddresses.NEW_LICS_CODE _
             HeaderMemAddresses.SGB_FLAG) by (cbv; congruence).
  rewrite (segment_then_rest data HeaderMemAddresses.TITLE _
             HeaderMemAddresses.NEW_LICS_CODE) by (cbv; congruence).
  rewrite (segment_then_rest data HeaderMemAddresses.LOGO _
             HeaderMemAddresses.TITLE) by (cbv; congruence).
  rewrite (segment_then_rest data HeaderMemAddresses.ENTRY_POINT _
             HeaderMemAddresses.LOGO) by (cbv; congruence).
  rewrite (segment_then_rest data 0 _ HeaderMemAddresses.ENTRY_POINT)
    by (cbv; congruence).
  reflexivity.
Qed.

(** X20. A file of at most 0x151 bytes leaves the CPU with an empty program: the
    script's run raises [IndexError] at the first opcode fetch, with the
    registers as constructed. *)
Theorem run_rom_short_file (data : list byte) (fuel : nat) :
  Z.of_nat (length data) <= 0x151 ->
  run_rom data (S fuel) = Some (Raise IndexError init).
Proof.
  intros Hn. unfold run_rom. rewrite main_loop_S, getitem_past_end; [reflexivity |].
  rewrite game_data_skipn, length_skipn. cbn [PC init]. lia.
Qed.

Lemma run_rom_short_file_witness :
  Z.of_nat (length (repeat xff 0x151)) <= 0x151 /\
  run_rom (repeat xff 0x151) 1 = Some (Raise IndexError init).
Proof.
  assert (Hn : Z.of_nat (length (repeat xff 0x151)) <= 0x151)
    by (vm_compute; discriminate).
  split; [exact Hn |].
  exact (run_rom_short_file (repeat xff 0x151) 0 Hn).
Defined.

(** ** What the deferred memory accesses leave behind *)

(** X21. Since the store through HL is never performed, [ld (hl+), a] cannot be
    told apart from [inc hl]: from every state the two operations give the
    same result. *)
Theorem ld_8bit_hli_a_is_inc_16bit_hl (s : cpu) :
  ld_8bit_hli_a s = inc_16bit_hl s.
Proof.
  destruct s as [af bc de [h l] sp pc tk].
  unfold ld_8bit_hli_a, inc_16bit_hl. run_cpu. reflexivity.
Qed.

(** X22. Every operation the run loop can dispatch, the two relative jumps apart,
    advances PC by 1, 2 or 3 when it returns and leaves PC alone when it
    raises; so straight-line code is walked front to back. *)
Theorem operation_advances_PC (game_data : list byte) (op_code : Z)
    (operation : M unit) (s : cpu) :
  opcode_table game_data op_code = Some operation ->
  op_code <> 0x10 -> op_code <> 0x18 -> op_code <> 0x20 ->
  match operation s with
  | Ok _ s' => In (PC s' - PC s) [1; 2; 3]
  | Raise _ s' => PC s' = PC s
  end.
Proof.
  intros Hop Hstop Hjr Hnz. unfold opcode_table in Hop.
  destruct s as [[a f] [b c] [d e] [h l] sp pc tk].
  repeat match type of Hop with
         | context [match ?p with _ => _ end] => destruct p
         end; try discriminate Hop;
    try (exfalso; first [apply Hstop | apply Hjr | apply Hnz]; reflexivity).
  all: injection Hop as <-.
  all: unfold_operations; run_branches.
  all: cbn [In]; try lia; auto.
Qed.

Lemma operation_advances_PC_witness :
  opcode_table [x21; x34; x12] 0x21 = Some (ld_16bit_hl [x21; x34; x12]) /\
  match ld_16bit_hl [x21; x34; x12] init with
  | Ok _ s' => In (PC s' - PC init) [1; 2; 3]
  | Raise _ s' => PC s' = PC init
  end.
Proof.
  split; [reflexivity |].
  exact (operation_advances_PC [x21; x34; x12] 0x21 _ init eq_refl
           ltac:(discriminate) ltac:(discriminate) ltac:(discriminate)).
Defined.
